(** * HUF Snake Turbo: simulation step and hall of fame

    A shallow embedding of the game logic of [src/SnakeGame.tsx]: the
    per-tick simulation step ([moveSnake], [spawnFood]) and the hall of
    fame ([qualifiesForHof], [mergeHallOfFame], [handleSaveScore],
    [loadHallOfFameOnline]).

    Conventions.
    - Grid coordinates, scores, levels and timestamps are JavaScript
      numbers that only ever hold integers in this component; they are
      modelled as [Z].
    - [speedRef] is the one number the source guards against being
      non-finite, so it is modelled by [Num], which adds the three
      non-finite IEEE values to the integers.
    - React refs and React state are fields of explicit state records
      that every operation takes and returns.
    - [Math.random] is an oracle [nat -> Z]: the k-th value is the k-th
      evaluation of [Math.floor(Math.random() * CONFIG.GRID_SIZE)].
    - An [async] function is split at its [await] into the part that runs
      before the request is sent and the continuation that runs when the
      response arrives. *)

From Stdlib Require Import String.
From Stdlib Require Import ZArith NArith List Bool Lia.
From Stdlib Require Import Sorting.Sorted Sorting.Permutation.
Import ListNotations.
Local Open Scope Z_scope.

(* ====================================================================== *)
(** ** Configuration *)
(* ====================================================================== *)

Module CONFIG.
Definition GRID_SIZE : Z := 15.
Definition INITIAL_SPEED : Z := 150.
Definition MIN_SPEED : Z := 60.
Definition SPEED_DECREASE : Z := 5.
Definition FOOD_SCORE : Z := 1.
Definition LEVEL_CLEAR_SCORE : Z := 5.
Definition FOOD_PER_LEVEL : Z := 8.
Definition NAME_MAX_CHARS : nat := 8.
Definition FOOD_COLOR : string := "#fbbf24"%string.
End CONFIG.

(* ====================================================================== *)
(** ** JavaScript numbers that may be non-finite *)
(* ====================================================================== *)

Inductive Num : Type :=
| Fin (z : Z)
| PosInf
| NegInf
| NaN.

(** [Number.isFinite]. *)
Definition isFinite (v : Num) : bool :=
  match v with
  | Fin _ => true
  | _ => false
  end.

(** The binary [-] of JavaScript on these values. *)
Definition num_sub (a b : Num) : Num :=
  match a, b with
  | NaN, _ | _, NaN => NaN
  | Fin p, Fin q => Fin (p - q)
  | PosInf, PosInf | NegInf, NegInf => NaN
  | PosInf, _ | _, NegInf => PosInf
  | NegInf, _ | _, PosInf => NegInf
  end.

(** [Math.max] with two arguments. *)
Definition num_max (a b : Num) : Num :=
  match a, b with
  | NaN, _ | _, NaN => NaN
  | PosInf, _ | _, PosInf => PosInf
  | NegInf, v | v, NegInf => v
  | Fin p, Fin q => Fin (Z.max p q)
  end.

(* ====================================================================== *)
(** ** Types of the component *)
(* ====================================================================== *)

Inductive Direction : Type := UP | DOWN | LEFT | RIGHT.

Inductive GameState : Type := menu | playing | paused | gameover | levelclear.

Inductive EnemyKind : Type := ant | crab | void.

Module Position.
Record t : Type := mk { x : Z; y : Z }.
End Position.

Module EnemyCell.
(** [phase] is a cosmetic animation offset; it is never read by the
    simulation and is kept as an integer number of milliradians. *)
Record t : Type := mk { x : Z; y : Z; kind : EnemyKind; phase : Z }.
End EnemyCell.

(** Audio and particle calls made by the step; they do not feed back into
    the simulation and are recorded in the order they are issued. *)
Inductive Effect : Type :=
| GameOverSound
| CoinSound
| Particles (x y : Z) (count : nat) (color : string).

(** The refs and state variables [moveSnake] reads or writes. *)
Record Game : Type := mkGame {
  snakeRef : list Position.t;
  directionRef : Direction;
  inputQueueRef : list Direction;
  foodRef : Position.t;
  enemiesRef : list EnemyCell.t;
  speedRef : Num;
  score : Z;
  highScore : Z;
  isNewRecord : bool;
  foodEatenThisLevel : Z;
  gameState : GameState;
  (** level-clear callbacks handed to [setTimeout] and not yet run *)
  levelClearTimers : nat;
  effects : list Effect
}.

(** Which [return] (or the fall-through) of [moveSnake] ended the tick. *)
Inductive Outcome : Type :=
| CollisionWall
| CollisionSelf
| CollisionEnemy
| Ate
| Moved.

Definition terminal (o : Outcome) : bool :=
  match o with
  | CollisionWall | CollisionSelf | CollisionEnemy => true
  | Ate | Moved => false
  end.

(* ====================================================================== *)
(** ** spawnFood *)
(* ====================================================================== *)

Section SpawnFood.
Variable rnd : nat -> Z.
Variable snake : list Position.t.
Variable enemies : list EnemyCell.t.

Definition isBlocked (pos : Position.t) : bool :=
  existsb (fun seg => (Position.x seg =? Position.x pos) && (Position.y seg =? Position.y pos)) snake
  || existsb (fun enemy => (EnemyCell.x enemy =? Position.x pos) && (EnemyCell.y enemy =? Position.y pos)) enemies.

(** The position drawn in iteration [i] of the [do ... while] loop. *)
Definition draw (i : nat) : Position.t :=
  Position.mk (rnd (2 * i)) (rnd (2 * i + 1)).

(** The [do ... while] loop from iteration [i] on, with [retries] more
    iterations allowed after this one: the loop leaves with the first
    draw that is not blocked, or with the last draw it is allowed. *)
Fixpoint sampleFood (i retries : nat) : Position.t :=
  let newFood := draw i in
  match retries with
  | O => newFood
  | S r => if isBlocked newFood then sampleFood (S i) r else newFood
  end.

(** The inner [for] loop over [x] on row [y], [n] columns left. *)
Fixpoint scanRow (y x : Z) (n : nat) : option Position.t :=
  match n with
  | O => None
  | S n' =>
      let candidate := Position.mk x y in
      if negb (isBlocked candidate) then Some candidate
      else scanRow y (x + 1) n'
  end.

(** The outer [for] loop over [y], [n] rows left; a hit in the inner loop
    sets [y] past the grid and so ends the outer loop too. *)
Fixpoint scanGrid (y : Z) (n : nat) : option Position.t :=
  match n with
  | O => None
  | S n' =>
      match scanRow y 0 (Z.to_nat CONFIG.GRID_SIZE) with
      | Some candidate => Some candidate
      | None => scanGrid (y + 1) n'
      end
  end.

(** The value stored into [foodRef.current]. *)
Definition spawnFood : Position.t :=
  let newFood := sampleFood 0 299 in
  if isBlocked newFood then
    match scanGrid 0 (Z.to_nat CONFIG.GRID_SIZE) with
    | Some candidate => candidate
    | None => newFood
    end
  else newFood.
End SpawnFood.

(* ====================================================================== *)
(** ** moveSnake *)
(* ====================================================================== *)

Definition isValidTurn (currentDir nextDir : Direction) : bool :=
  negb (match currentDir, nextDir with
        | UP, DOWN => true
        | DOWN, UP => true
        | LEFT, RIGHT => true
        | RIGHT, LEFT => true
        | _, _ => false
        end).

(** "Process input queue": the heading and the queue after it. *)
Definition processInput (directionRef0 : Direction) (queue : list Direction)
  : Direction * list Direction :=
  match queue with
  | [] => (directionRef0, [])
  | nextDir :: rest =>
      (if isValidTurn directionRef0 nextDir then nextDir else directionRef0, rest)
  end.

(** The [switch] on the heading applied to a copy of the head. *)
Definition advance (d : Direction) (head : Position.t) : Position.t :=
  match d with
  | UP => Position.mk (Position.x head) (Position.y head - 1)
  | DOWN => Position.mk (Position.x head) (Position.y head + 1)
  | LEFT => Position.mk (Position.x head - 1) (Position.y head)
  | RIGHT => Position.mk (Position.x head + 1) (Position.y head)
  end.

Definition outsideGrid (head : Position.t) : bool :=
  (Position.x head <? 0) || (Position.x head >=? CONFIG.GRID_SIZE)
  || (Position.y head <? 0) || (Position.y head >=? CONFIG.GRID_SIZE).

(** [snake.slice(0, -1).some(seg => seg.x === head.x && seg.y === head.y)] *)
Definition willCollide (snake : list Position.t) (head : Position.t) : bool :=
  existsb (fun seg => (Position.x seg =? Position.x head) && (Position.y seg =? Position.y head))
          (removelast snake).

Definition hitEnemy (enemies : list EnemyCell.t) (head : Position.t) : bool :=
  existsb (fun enemy => (EnemyCell.x enemy =? Position.x head) && (EnemyCell.y enemy =? Position.y head))
          enemies.

(** "Speed up": the value of [speedRef.current] after food is eaten. *)
Definition speedUp (speed : Num) : Num :=
  let s := num_max (num_sub speed (Fin CONFIG.SPEED_DECREASE)) (Fin CONFIG.MIN_SPEED) in
  if negb (isFinite s) then Fin CONFIG.INITIAL_SPEED else s.

(** The interval the game loop compares the elapsed time with. *)
Definition loopSpeed (g : Game) : Num :=
  if isFinite (speedRef g) then speedRef g else Fin CONFIG.INITIAL_SPEED.

(** The three early returns share this shape: the heading and the queue
    were already written, the phase becomes [gameover], nothing else is
    touched. *)
Definition endGame (g : Game) (dir : Direction) (queue : list Direction)
    (fx : list Effect) : Game :=
  mkGame (snakeRef g) dir queue (foodRef g) (enemiesRef g) (speedRef g)
         (score g) (highScore g) (isNewRecord g) (foodEatenThisLevel g)
         gameover (levelClearTimers g) (effects g ++ fx).

Definition moveSnake (rnd : nat -> Z) (g : Game) : Outcome * Game :=
  let snake := snakeRef g in
  let food := foodRef g in
  let '(dir, queue) := processInput (directionRef g) (inputQueueRef g) in
  match snake with
  | [] =>
      (* [{...snake[0]}] is the empty object: the coordinate the switch
         touches becomes NaN and the other stays undefined, so every
         comparison below is false, and the cell that is unshifted is
         popped again. *)
      (Moved,
       mkGame [] dir queue food (enemiesRef g) (speedRef g)
              (score g) (highScore g) (isNewRecord g) (foodEatenThisLevel g)
              (gameState g) (levelClearTimers g) (effects g))
  | head0 :: _ =>
      let head := advance dir head0 in
      if outsideGrid head then
        (CollisionWall, endGame g dir queue [GameOverSound])
      else if willCollide snake head then
        (CollisionSelf, endGame g dir queue [GameOverSound])
      else if hitEnemy (enemiesRef g) head then
        (CollisionEnemy,
         endGame g dir queue
                 [Particles (Position.x head) (Position.y head) 18 "#ef4444"%string; GameOverSound])
      else
        let moved := head :: snake in
        if (Position.x head =? Position.x food) && (Position.y head =? Position.y food) then
          let newScore := score g + CONFIG.FOOD_SCORE in
          let record := newScore >? highScore g in
          let newCount := foodEatenThisLevel g + 1 in
          (Ate,
           mkGame moved dir queue
                  (spawnFood rnd moved (enemiesRef g))
                  (enemiesRef g)
                  (speedUp (speedRef g))
                  newScore
                  (if record then newScore else highScore g)
                  (if record then true else isNewRecord g)
                  newCount
                  (gameState g)
                  (if newCount >=? CONFIG.FOOD_PER_LEVEL
                   then S (levelClearTimers g) else levelClearTimers g)
                  (effects g ++
                   [CoinSound;
                    Particles (Position.x food) (Position.y food) 12 CONFIG.FOOD_COLOR]))
        else
          (Moved,
           mkGame (removelast moved) dir queue food (enemiesRef g) (speedRef g)
                  (score g) (highScore g) (isNewRecord g) (foodEatenThisLevel g)
                  (gameState g) (levelClearTimers g) (effects g))
  end.

(** The centred three-cell snake of [initGame] and [nextLevel]. *)
Definition startSnake : list Position.t :=
  let centerX := CONFIG.GRID_SIZE / 2 in
  let centerY := CONFIG.GRID_SIZE / 2 in
  [Position.mk centerX centerY; Position.mk (centerX - 1) centerY;
   Position.mk (centerX - 2) centerY].

(* ====================================================================== *)
(** ** Hall of fame: entries, ordering, qualification *)
(* ====================================================================== *)

(** A JavaScript string: its UTF-16 code units. *)
Definition JSString : Type := list N.

(** The code units [String.prototype.trim] strips (WhiteSpace and
    LineTerminator of ECMAScript). *)
Definition isWhiteSpace (c : N) : bool :=
  (existsb (N.eqb c)
     [9; 10; 11; 12; 13; 32; 160; 5760; 8232; 8233; 8239; 8287; 12288; 65279]
   || ((8192 <=? c) && (c <=? 8202)))%N.

Fixpoint trimStart (s : JSString) : JSString :=
  match s with
  | [] => []
  | c :: rest => if isWhiteSpace c then trimStart rest else s
  end.

Definition trim (s : JSString) : JSString :=
  rev (trimStart (rev (trimStart s))).

Module Entry.
Record t : Type := mk {
  id : option string;
  name : JSString;
  score : Z;
  level : Z;
  ts : Z
}.
End Entry.

(** The comparator handed to [sort]: [(b.score - a.score) || (b.ts - a.ts)]. *)
Definition compareEntries (a b : Entry.t) : Z :=
  let d := Entry.score b - Entry.score a in
  if d =? 0 then Entry.ts b - Entry.ts a else d.

(** [Array.prototype.sort] is a stable sort: with a comparator that is a
    consistent ordering its result is the one stable arrangement, which
    insertion from the right computes. [a] goes in front of the first
    element it does not have to follow. *)
Fixpoint insertEntry (a : Entry.t) (l : list Entry.t) : list Entry.t :=
  match l with
  | [] => [a]
  | b :: rest =>
      if compareEntries a b <=? 0 then a :: l else b :: insertEntry a rest
  end.

Fixpoint sortEntries (l : list Entry.t) : list Entry.t :=
  match l with
  | [] => []
  | a :: rest => insertEntry a (sortEntries rest)
  end.

(** The updater [mergeHallOfFame] passes to [setHallOfFame]. *)
Definition mergeHallOfFame (entry : Entry.t) (prev : list Entry.t) : list Entry.t :=
  firstn 10 (sortEntries (entry :: prev)).

(** [hallOfFame.reduce((min, entry) => Math.min(min, entry.score),
    hallOfFame[0].score)], [null] below ten entries. *)
Definition getHofCutoff (hallOfFame : list Entry.t) : option Z :=
  if (length hallOfFame <? 10)%nat then None
  else
    match hallOfFame with
    | [] => None
    | first :: _ =>
        Some (fold_left (fun min entry => Z.min min (Entry.score entry))
                        hallOfFame (Entry.score first))
    end.

Definition qualifiesForHof (hallOfFame : list Entry.t) (candidateScore : Z) : bool :=
  if candidateScore <=? 0 then false
  else if (length hallOfFame <? 10)%nat then true
  else
    match getHofCutoff hallOfFame with
    | Some cutoff => candidateScore >? cutoff
    | None => false
    end.

(* ====================================================================== *)
(** ** Hall of fame: component state *)
(* ====================================================================== *)

Inductive HofError : Type :=
| SlowNotice                       (* "Online lista lassu ..." *)
| LoadFailed (details : string)    (* "Online lista hiba: ..." *)
| SaveFailed (details : string).   (* "Online mentes sikertelen: ..." *)

(** A row sent to the remote table by [insert]. *)
Record InsertRow : Type := mkInsertRow {
  ins_name : JSString;
  ins_score : Z;
  ins_level : Z
}.

(** The state the hall of fame code reads or writes. [hasSupabaseConfig]
    is fixed when the module is loaded ([supabase] is non-null exactly
    when it is set); [hallOfFameRef] mirrors [hallOfFame] after every
    render and is not kept apart; [loadHallOfFameOnlineRef] is set exactly
    while [hofIsMountedRef] is. [inserts] is the log of rows handed to the
    remote [insert]. Writes to [localStorage] and sounds are left out:
    nothing here reads them back. *)
Record Hof : Type := mkHof {
  hasSupabaseConfig : bool;
  hallOfFame : list Entry.t;
  hofLoading : bool;
  hofError : option HofError;
  hofRequestIdRef : nat;
  hofIsMountedRef : bool;
  hasSavedScore : bool;
  playerName : JSString;
  inserts : list InsertRow
}.

Definition setHallOfFame (v : list Entry.t) (h : Hof) : Hof :=
  mkHof (hasSupabaseConfig h) v (hofLoading h) (hofError h) (hofRequestIdRef h)
        (hofIsMountedRef h) (hasSavedScore h) (playerName h) (inserts h).

Definition setHofLoading (v : bool) (h : Hof) : Hof :=
  mkHof (hasSupabaseConfig h) (hallOfFame h) v (hofError h) (hofRequestIdRef h)
        (hofIsMountedRef h) (hasSavedScore h) (playerName h) (inserts h).

Definition setHofError (v : option HofError) (h : Hof) : Hof :=
  mkHof (hasSupabaseConfig h) (hallOfFame h) (hofLoading h) v (hofRequestIdRef h)
        (hofIsMountedRef h) (hasSavedScore h) (playerName h) (inserts h).

Definition setHofRequestId (v : nat) (h : Hof) : Hof :=
  mkHof (hasSupabaseConfig h) (hallOfFame h) (hofLoading h) (hofError h) v
        (hofIsMountedRef h) (hasSavedScore h) (playerName h) (inserts h).

Definition setHofIsMounted (v : bool) (h : Hof) : Hof :=
  mkHof (hasSupabaseConfig h) (hallOfFame h) (hofLoading h) (hofError h)
        (hofRequestIdRef h) v (hasSavedScore h) (playerName h) (inserts h).

Definition setHasSavedScore (v : bool) (h : Hof) : Hof :=
  mkHof (hasSupabaseConfig h) (hallOfFame h) (hofLoading h) (hofError h)
        (hofRequestIdRef h) (hofIsMountedRef h) v (playerName h) (inserts h).

Definition setPlayerName (v : JSString) (h : Hof) : Hof :=
  mkHof (hasSupabaseConfig h) (hallOfFame h) (hofLoading h) (hofError h)
        (hofRequestIdRef h) (hofIsMountedRef h) (hasSavedScore h) v (inserts h).

Definition logInsert (r : InsertRow) (h : Hof) : Hof :=
  mkHof (hasSupabaseConfig h) (hallOfFame h) (hofLoading h) (hofError h)
        (hofRequestIdRef h) (hofIsMountedRef h) (hasSavedScore h) (playerName h)
        (inserts h ++ [r]).

(* ====================================================================== *)
(** ** loadHallOfFameOnline *)
(* ====================================================================== *)

(** A row of the remote answer, field by field as the mapper tests them:
    [row_id] is [None] for a falsy id; [row_name], [row_score], [row_level]
    are [None] when the field is not of the expected JavaScript type (a
    score of type number may still be non-finite); [row_created_at] is the
    result of [Date.parse], [None] when that is not finite. *)
Record Row : Type := mkRow {
  row_id : option string;
  row_name : option JSString;
  row_score : option Num;
  row_level : option Z;
  row_created_at : option Z
}.

Inductive FetchResult : Type :=
| FetchError (details : string)
| FetchData (rows : list Row).     (* [data ?? []] *)

(** The [map] step followed by the [filter] test on one row; [now] is the
    clock read by [Date.now()]. *)
Definition entryOfRow (now : Z) (row : Row) : option Entry.t :=
  let name := match row_name row with
              | Some s => firstn CONFIG.NAME_MAX_CHARS s
              | None => []
              end in
  let score := match row_score row with Some v => v | None => Fin 0 end in
  let level := match row_level row with Some v => v | None => 1 end in
  let ts := match row_created_at row with Some t => t | None => now end in
  match name, score with
  | _ :: _, Fin s => Some (Entry.mk (row_id row) name s level ts)
  | _, _ => None
  end.

Definition entriesOfRows (now : Z) (rows : list Row) : list Entry.t :=
  flat_map (fun row => match entryOfRow now row with
                       | Some e => [e]
                       | None => []
                       end) rows.

(** Up to the [await]: take the next request id, show the spinner when
    asked, clear the error. The id is returned to the caller, which holds
    it until the answer (and, with [showLoading], the timer) comes back. *)
Definition loadHallOfFameOnline_start (showLoading : bool) (h : Hof) : nat * Hof :=
  let requestId := S (hofRequestIdRef h) in
  let h1 := setHofRequestId requestId h in
  let h2 := if showLoading then setHofLoading true h1 else h1 in
  (requestId, setHofError None h2).

(** The callback given to [setTimeout] by a request with [showLoading]. *)
Definition hofLoadingTimeout (requestId : nat) (h : Hof) : Hof :=
  if negb (hofIsMountedRef h) then h
  else if negb (hofRequestIdRef h =? requestId)%nat then h
  else if (length (hallOfFame h) =? 0)%nat
       then setHofError (Some SlowNotice) (setHofLoading false h)
       else h.

(** After the [await]: the continuation of request [requestId]. *)
Definition loadHallOfFameOnline_resume (requestId : nat) (res : FetchResult)
    (now : Z) (h : Hof) : Hof :=
  if negb (hofIsMountedRef h) then h
  else if negb (hofRequestIdRef h =? requestId)%nat then h
  else
    match res with
    | FetchError details =>
        setHofLoading false (setHofError (Some (LoadFailed details)) h)
    | FetchData rows =>
        setHofLoading false
          (setHofError None (setHallOfFame (entriesOfRows now rows) h))
    end.

(* ====================================================================== *)
(** ** handleSaveScore *)
(* ====================================================================== *)

(** How far [handleSaveScore] gets before it returns or suspends. *)
Inductive SaveStep : Type :=
| SaveRefused                          (* one of the early returns *)
| SaveDone (h : Hof)                   (* no remote: finished at once *)
| SaveAwait (entry : Entry.t) (h : Hof). (* insert sent, awaiting answer *)

(** [mergeHallOfFame(entry); setHasSavedScore(true)] *)
Definition saveLocally (entry : Entry.t) (h : Hof) : Hof :=
  setHasSavedScore true (setHallOfFame (mergeHallOfFame entry (hallOfFame h)) h).

(** Up to the [await]. [score] and [level] are the game's state variables
    as the handler's closure sees them, [now] is [Date.now()]. *)
Definition handleSaveScore_start (score level now : Z) (h : Hof) : SaveStep :=
  if hasSavedScore h || (score <=? 0) then SaveRefused
  else if hasSupabaseConfig h && hofLoading h && (length (hallOfFame h) =? 0)%nat
  then SaveRefused
  else if negb (qualifiesForHof (hallOfFame h) score) then SaveRefused
  else
    let name := firstn CONFIG.NAME_MAX_CHARS (trim (playerName h)) in
    match name with
    | [] => SaveRefused
    | _ :: _ =>
        let entry := Entry.mk None name score level now in
        if hasSupabaseConfig h then
          SaveAwait entry
            (logInsert (mkInsertRow name score level) (setHofError None h))
        else SaveDone (saveLocally entry h)
    end.

(** After the [await]: [error] is [None] when the insert succeeded, and
    carries the formatted reason when it answered with an error or threw. *)
Definition handleSaveScore_resume (entry : Entry.t) (error : option string)
    (h : Hof) : Hof :=
  match error with
  | None =>
      let h1 := setHallOfFame (mergeHallOfFame entry (hallOfFame h)) h in
      let h2 := if hofIsMountedRef h1
                then snd (loadHallOfFameOnline_start false h1)
                else h1 in
      setHasSavedScore true h2
  | Some details =>
      saveLocally entry (setHofError (Some (SaveFailed details)) h)
  end.

(** One save attempt run to its end with nothing else in between. *)
Definition handleSaveScore (score level now : Z) (error : option string)
    (h : Hof) : Hof :=
  match handleSaveScore_start score level now h with
  | SaveRefused => h
  | SaveDone h' => h'
  | SaveAwait entry h' => handleSaveScore_resume entry error h'
  end.

(** [setHasSavedScore(false)], the one write of [startGame] and
    [resumeGame] to this state. *)
Definition startGame (h : Hof) : Hof := setHasSavedScore false h.

(** The effect that owns the online list, run on mount: without a remote
    it does nothing; with one it marks the component mounted and issues
    the first fetch, with the spinner. *)
Definition mountHof (h : Hof) : Hof :=
  if negb (hasSupabaseConfig h) then h
  else snd (loadHallOfFameOnline_start true (setHofIsMounted true h)).

(** The cleanup of that effect. *)
Definition unmountHof (h : Hof) : Hof := setHofIsMounted false h.

(* ====================================================================== *)
(** ** The hall of fame as an event-driven machine *)
(* ====================================================================== *)

(** Everything that can run against the hall of fame state, one event per
    synchronous piece of code. *)
Inductive Event : Type :=
| EvFetch (showLoading : bool)
| EvFetchAnswer (requestId : nat) (res : FetchResult) (now : Z)
| EvFetchTimeout (requestId : nat)
| EvSaveClick (score level now : Z)
| EvSaveAnswer (entry : Entry.t) (error : option string)
| EvNameChange (sanitized : JSString)   (* [handleNameChange], its result *)
| EvStartGame
| EvMount
| EvUnmount.

Definition step (h : Hof) (e : Event) : Hof :=
  match e with
  | EvFetch showLoading => snd (loadHallOfFameOnline_start showLoading h)
  | EvFetchAnswer requestId res now => loadHallOfFameOnline_resume requestId res now h
  | EvFetchTimeout requestId => hofLoadingTimeout requestId h
  | EvSaveClick score level now =>
      match handleSaveScore_start score level now h with
      | SaveRefused => h
      | SaveDone h' => h'
      | SaveAwait _ h' => h'
      end
  | EvSaveAnswer entry error => handleSaveScore_resume entry error h
  | EvNameChange sanitized => setPlayerName sanitized h
  | EvStartGame => startGame h
  | EvMount => mountHof h
  | EvUnmount => unmountHof h
  end.

Definition run (events : list Event) (h : Hof) : Hof := fold_left step events h.

(* ====================================================================== *)
(** ** spawnEnemiesForLevel *)
(* ====================================================================== *)

(** [Math.random] as [spawnEnemiesForLevel] reads it. The k-th call of
    the function returns one number; the code uses it in one of three
    ways, and each field gives the k-th number read that way:
    [Math.floor(r * CONFIG.GRID_SIZE)], [Math.floor(r * kinds.length)],
    and [r * Math.PI * 2] (in milliradians, see [EnemyCell.phase]). *)
Record Random : Type := mkRandom {
  rndCell : nat -> Z;
  rndKind : nat -> nat;
  rndPhase : nat -> Z
}.

(** The key [`${x},${y}`] of the [blocked] set: two keys are the same
    string exactly when both coordinates agree, so the pair stands for
    the string. *)
Definition toKey (x y : Z) : Z * Z := (x, y).

(** [blocked.has(key)]; the set is kept as the list of the keys added,
    latest first. *)
Definition hasKey (blocked : list (Z * Z)) (key : Z * Z) : bool :=
  existsb (fun k => (fst k =? fst key) && (snd k =? snd key)) blocked.

(** [kinds[i]] for [kinds = ['ant', 'crab', 'void']]; the index is
    [Math.floor(Math.random() * 3)], which is 0, 1 or 2. *)
Definition kindAt (i : nat) : EnemyKind :=
  match i with
  | O => ant
  | S O => crab
  | _ => void
  end.

(** "Keep the immediate head area clear on level start": the keys the two
    nested [for] loops over [dx] and [dy] add, for the cells of the 3x3
    block around the head that lie on the grid. *)
Definition headArea (head : Position.t) : list (Z * Z) :=
  flat_map
    (fun dx =>
       flat_map
         (fun dy =>
            let x := Position.x head + dx in
            let y := Position.y head + dy in
            if (x >=? 0) && (x <? CONFIG.GRID_SIZE)
               && (y >=? 0) && (y <? CONFIG.GRID_SIZE)
            then [toKey x y] else [])
         [-1; 0; 1])
    [-1; 0; 1].

(** The keys in [blocked] before the placement loop starts. *)
Definition initialBlocked (snake : list Position.t) : list (Z * Z) :=
  match snake with
  | [] => []
  | head :: _ => headArea head
  end
  ++ map (fun segment => toKey (Position.x segment) (Position.y segment)) snake.

(** The [while] loop, with [attemptsLeft] iterations still allowed;
    [call] counts the calls of [Math.random] made so far. An iteration
    draws a cell; a blocked cell costs the attempt, a free one is blocked
    from then on and receives an enemy with a drawn kind and phase. *)
Fixpoint placeEnemies (rnd : Random) (enemyCount : Z) (attemptsLeft call : nat)
    (blocked : list (Z * Z)) (enemies : list EnemyCell.t) : list EnemyCell.t :=
  match attemptsLeft with
  | O => enemies
  | S attemptsLeft' =>
      if Z.of_nat (length enemies) <? enemyCount then
        let x := rndCell rnd call in
        let y := rndCell rnd (call + 1) in
        let key := toKey x y in
        if hasKey blocked key
        then placeEnemies rnd enemyCount attemptsLeft' (call + 2) blocked enemies
        else placeEnemies rnd enemyCount attemptsLeft' (call + 4) (key :: blocked)
               (enemies ++ [EnemyCell.mk x y (kindAt (rndKind rnd (call + 2)))
                                         (rndPhase rnd (call + 3))])
      else enemies
  end.

(** The value stored into [enemiesRef.current]. *)
Definition spawnEnemiesForLevel (rnd : Random) (targetLevel : Z)
    (snake : list Position.t) : list EnemyCell.t :=
  let enemyCount := Z.max 0 (targetLevel - 1) in
  if enemyCount =? 0 then []
  else placeEnemies rnd enemyCount 4000 0 (initialBlocked snake) [].

(* ====================================================================== *)
(** ** Starting a game and a level *)
(* ====================================================================== *)

(** The interval a level starts with:
    [Math.max(CONFIG.INITIAL_SPEED - (level - 1) * 10, CONFIG.MIN_SPEED)]. *)
Definition levelSpeed (effectiveLevel : Z) : Num :=
  num_max (Fin (CONFIG.INITIAL_SPEED - (effectiveLevel - 1) * 10))
          (Fin CONFIG.MIN_SPEED).

Module Session.

(** The game together with the state its controls read and write besides:
    the level counters, the two pause refs, and the side of the square
    canvas. *)
Record t : Type := mk {
  game : Game;
  level : Z;
  highLevel : Z;
  hasStartedRef : bool;
  autoPausedRef : bool;
  canvasSize : Z
}.

Definition withGame (g : Game) (s : t) : t :=
  mk g (level s) (highLevel s) (hasStartedRef s) (autoPausedRef s) (canvasSize s).

Definition withGameState (v : GameState) (s : t) : t :=
  let g := game s in
  withGame (mkGame (snakeRef g) (directionRef g) (inputQueueRef g) (foodRef g)
                   (enemiesRef g) (speedRef g) (score g) (highScore g)
                   (isNewRecord g) (foodEatenThisLevel g) v
                   (levelClearTimers g) (effects g)) s.

Definition withAutoPaused (v : bool) (s : t) : t :=
  mk (game s) (level s) (highLevel s) (hasStartedRef s) v (canvasSize s).

Definition withHasStarted (v : bool) (s : t) : t :=
  mk (game s) (level s) (highLevel s) v (autoPausedRef s) (canvasSize s).

(** [initGame(keepScore)]. The enemies are drawn from [rnd]; [rndFood]
    are the draws [spawnFood] makes after them. *)
Definition initGame (rnd : Random) (rndFood : nat -> Z) (keepScore : bool)
    (s : t) : t :=
  let g := game s in
  let effectiveLevel := if keepScore then level s else 1 in
  let snake := startSnake in
  let enemies := spawnEnemiesForLevel rnd effectiveLevel snake in
  mk (mkGame snake RIGHT [] (spawnFood rndFood snake enemies) enemies
             (levelSpeed effectiveLevel)
             (if keepScore then score g else 0)
             (highScore g) (isNewRecord g)
             (if keepScore then foodEatenThisLevel g else 0)
             (gameState g) (levelClearTimers g) (effects g))
     (if keepScore then level s else 1)
     (highLevel s) (hasStartedRef s) (autoPausedRef s) (canvasSize s).

(** [startGame], the part that writes the game ([setHasSavedScore(false)]
    is [startGame] on the hall of fame state). *)
Definition startGame (rnd : Random) (rndFood : nat -> Z) (s : t) : t :=
  let s1 := initGame rnd rndFood false (withHasStarted true s) in
  let g := game s1 in
  withGame (mkGame (snakeRef g) (directionRef g) (inputQueueRef g) (foodRef g)
                   (enemiesRef g) (speedRef g) (score g) (highScore g)
                   false (foodEatenThisLevel g) playing
                   (levelClearTimers g) (effects g)) s1.

Definition resumeGame (s : t) : t :=
  withGameState playing (withHasStarted true s).

Definition nextLevel (rnd : Random) (rndFood : nat -> Z) (s : t) : t :=
  let g := game s in
  let newLevel := level s + 1 in
  let snake := startSnake in
  let enemies := spawnEnemiesForLevel rnd newLevel snake in
  mk (mkGame snake RIGHT [] (spawnFood rndFood snake enemies) enemies
             (levelSpeed newLevel)
             (score g) (highScore g) (isNewRecord g) 0 playing
             (levelClearTimers g) (effects g))
     newLevel
     (if newLevel >? highLevel s then newLevel else highLevel s)
     (hasStartedRef s) (autoPausedRef s) (canvasSize s).

(** The effect on [isVisible] and [gameState]: its tests read the
    [gameState] of the render it belongs to, also after it has asked for
    another. *)
Definition visibilityEffect (isVisible : bool) (s : t) : t :=
  let state := gameState (game s) in
  if negb isVisible then
    let s1 := match state with
              | playing => withGameState paused s
              | _ => s
              end in
    if hasStartedRef s
       && match state with gameover | menu => false | _ => true end
    then withAutoPaused true s1
    else s1
  else
    if autoPausedRef s && hasStartedRef s
       && match state with paused => true | _ => false end
    then withGameState playing (withAutoPaused false s)
    else s.

(** [handleClose], up to its call of [onClose]. *)
Definition handleClose (s : t) : t :=
  let state := gameState (game s) in
  let s1 := if hasStartedRef s
               && match state with gameover | menu => false | _ => true end
            then withAutoPaused true s
            else s in
  match state with
  | playing => withGameState paused s1
  | _ => s1
  end.

(** [updateSize]: [container] is [containerRef.current.clientWidth], an
    integer number of pixels, or [None] while the ref is not attached. *)
Definition updateSize (container : option Z) (s : t) : t :=
  match container with
  | None => s
  | Some clientWidth =>
      let containerWidth := clientWidth - 16 in
      if containerWidth <=? 0 then s
      else
        let maxSize := Z.min containerWidth 350 in
        let size := (maxSize / CONFIG.GRID_SIZE) * CONFIG.GRID_SIZE in
        if size >? 0
        then mk (game s) (level s) (highLevel s) (hasStartedRef s)
                (autoPausedRef s) size
        else s
  end.

End Session.

(** The callback [moveSnake] hands to [setTimeout] when the level's food
    threshold is reached. *)
Definition levelClearTimeout (g : Game) : Game :=
  let newScore := score g + CONFIG.LEVEL_CLEAR_SCORE in
  let record := newScore >? highScore g in
  mkGame (snakeRef g) (directionRef g) (inputQueueRef g) (foodRef g)
         (enemiesRef g) (speedRef g) newScore
         (if record then newScore else highScore g)
         (if record then true else isNewRecord g)
         (foodEatenThisLevel g) levelclear
         (Nat.pred (levelClearTimers g)) (effects g).

(* ====================================================================== *)
(** ** Keyboard input *)
(* ====================================================================== *)

(** The direction cases of the [switch] on [e.key]. *)
Definition keyDirection (key : string) : option Direction :=
  if existsb (String.eqb key) ["ArrowUp"; "w"; "W"]%string then Some UP
  else if existsb (String.eqb key) ["ArrowDown"; "s"; "S"]%string then Some DOWN
  else if existsb (String.eqb key) ["ArrowLeft"; "a"; "A"]%string then Some LEFT
  else if existsb (String.eqb key) ["ArrowRight"; "d"; "D"]%string then Some RIGHT
  else None.

(** [handleKeyDown] for the key [e.key]. *)
Definition handleKeyDown (key : string) (g : Game) : Game :=
  match gameState g with
  | playing =>
      match keyDirection key with
      | Some newDir =>
          if (length (inputQueueRef g) <? 2)%nat
          then mkGame (snakeRef g) (directionRef g) (inputQueueRef g ++ [newDir])
                      (foodRef g) (enemiesRef g) (speedRef g) (score g)
                      (highScore g) (isNewRecord g) (foodEatenThisLevel g)
                      (gameState g) (levelClearTimers g) (effects g)
          else g
      | None =>
          if existsb (String.eqb key) [" "; "Escape"]%string
          then mkGame (snakeRef g) (directionRef g) (inputQueueRef g)
                      (foodRef g) (enemiesRef g) (speedRef g) (score g)
                      (highScore g) (isNewRecord g) (foodEatenThisLevel g)
                      paused (levelClearTimers g) (effects g)
          else g
      end
  | _ => g
  end.

(** What can happen to a game between two renders, one event per
    synchronous piece of code: a key goes down, a frame of the game loop
    finds a tick due, or a level-clear timer fires. The loop calls
    [moveSnake] only in phase [playing]. *)
Inductive PlayEvent : Type :=
| KeyDown (key : string)
| Tick (rnd : nat -> Z)
| LevelClearTimer.

Definition playStep (g : Game) (e : PlayEvent) : Game :=
  match e with
  | KeyDown key => handleKeyDown key g
  | Tick rnd =>
      match gameState g with
      | playing => snd (moveSnake rnd g)
      | _ => g
      end
  | LevelClearTimer => levelClearTimeout g
  end.

Definition play (events : list PlayEvent) (g : Game) : Game :=
  fold_left playStep events g.

(* ====================================================================== *)
(** ** handleNameChange *)
(* ====================================================================== *)

(** The code units the second [replace] keeps: the digits, the letters
    A to Z in both cases, and the nine accented vowels of Hungarian in
    both cases, each a single code unit. *)
Definition isNameChar (c : N) : bool :=
  (((48 <=? c) && (c <=? 57))
   || ((65 <=? c) && (c <=? 90))
   || ((97 <=? c) && (c <=? 122))
   || existsb (N.eqb c) [193; 201; 205; 211; 214; 336; 218; 220; 368;
                         225; 233; 237; 243; 246; 337; 250; 252; 369])%N.

(** [toLocaleUpperCase('hu-HU')] on one code unit of that alphabet, where
    it maps unit to unit; other code units never reach it. *)
Definition toUpperCaseHu (c : N) : N :=
  (if (97 <=? c) && (c <=? 122) then c - 32
   else if existsb (N.eqb c) [225; 233; 237; 243; 246; 250; 252] then c - 32
   else if existsb (N.eqb c) [337; 369] then c - 1
   else c)%N.

(** The value [handleNameChange] stores, from [value.normalize('NFC')]:
    whitespace removed, then every code unit outside the alphabet
    removed, then cut to [NAME_MAX_CHARS], then upper-cased. *)
Definition sanitizeName (normalized : JSString) : JSString :=
  map toUpperCaseHu
      (firstn CONFIG.NAME_MAX_CHARS
              (filter isNameChar
                      (filter (fun c => negb (isWhiteSpace c)) normalized))).

Definition handleNameChange (normalized : JSString) (h : Hof) : Hof :=
  setPlayerName (sanitizeName normalized) h.

(* ====================================================================== *)
(** ** formatSupabaseError *)
(* ====================================================================== *)

(** The four fields the formatter reads; a field is [None] when the
    object does not carry it. *)
Record SupabaseError : Type := mkSupabaseError {
  err_message : option string;
  err_details : option string;
  err_hint : option string;
  err_code : option string
}.

(** [filter(Boolean)] on a list of optional strings: absent and empty
    ones go. *)
Definition filterBoolean (fields : list (option string)) : list string :=
  flat_map (fun field => match field with
                         | Some EmptyString => []
                         | Some text => [text]
                         | None => []
                         end) fields.

(** [error] is [None] when the value is falsy or not an object. *)
Definition formatSupabaseError (error : option SupabaseError) : string :=
  match error with
  | None => "Ismeretlen hiba"%string
  | Some err =>
      let joined :=
        String.concat " | "
          (filterBoolean [err_message err; err_details err; err_hint err; err_code err]) in
      match joined with
      | EmptyString => "Ismeretlen hiba"%string
      | _ => joined
      end
  end.

(* ====================================================================== *)
(** ** loadHallOfFame and the first render *)
(* ====================================================================== *)

(** An element of the stored array as the filter and the mapper test it:
    a field is [None] when it is not of the JavaScript type asked for
    ([string] for the name, [number] for the others). *)
Record StoredItem : Type := mkStoredItem {
  item_name : option JSString;
  item_score : option Z;
  item_level : option Z;
  item_ts : option Z
}.

(** What [localStorage] holds under the hall of fame key, as far as the
    loader tells cases apart; an array element is [None] when it is
    falsy. *)
Inductive Stored : Type :=
| StoredMissing                 (* [getItem] gave [null] or the empty string *)
| StoredMalformed               (* [JSON.parse] threw *)
| StoredNotArray                (* parsed, but not an array *)
| StoredArray (items : list (option StoredItem)).

Definition loadHallOfFame (now : Z) (stored : Stored) : list Entry.t :=
  match stored with
  | StoredArray items =>
      firstn 10
        (flat_map
           (fun item =>
              match item with
              | Some it =>
                  match item_name it, item_score it with
                  | Some name, Some score =>
                      [Entry.mk None (firstn CONFIG.NAME_MAX_CHARS name) score
                                (match item_level it with Some v => v | None => 1 end)
                                (match item_ts it with Some v => v | None => now end)]
                  | _, _ => []
                  end
              | None => []
              end)
           items)
  | _ => []
  end.

(** What [JSON.stringify(entries)], once written and read back, parses
    to: every entry an object with its four fields ([id] is written too
    when present; the loader does not read it). *)
Definition storedEntries (entries : list Entry.t) : Stored :=
  StoredArray
    (map (fun e => Some (mkStoredItem (Some (Entry.name e)) (Some (Entry.score e))
                                      (Some (Entry.level e)) (Some (Entry.ts e))))
         entries).

(** The hall of fame state of the first render: the list from storage,
    the spinner on exactly when a remote is configured, the last name
    used ([''] when none is stored). *)
Definition initialHof (configured : bool) (now : Z) (stored : Stored)
    (lastName : JSString) : Hof :=
  mkHof configured (loadHallOfFame now stored) configured None 0 false false
        lastName [].

(* ====================================================================== *)
(** ** Vocabulary of the statements *)
(* ====================================================================== *)

(** The heading of the tick: the one left by "Process input queue". *)
Definition heading (g : Game) : Direction :=
  fst (processInput (directionRef g) (inputQueueRef g)).

(** The 180-degree reverse of a heading. *)
Definition opposite (d : Direction) : Direction :=
  match d with
  | UP => DOWN
  | DOWN => UP
  | LEFT => RIGHT
  | RIGHT => LEFT
  end.

Definition inGrid (p : Position.t) : Prop :=
  0 <= Position.x p < CONFIG.GRID_SIZE /\ 0 <= Position.y p < CONFIG.GRID_SIZE.

(** An obstacle sits on cell [p]. *)
Definition enemyAt (enemies : list EnemyCell.t) (p : Position.t) : Prop :=
  exists enemy, In enemy enemies
                /\ EnemyCell.x enemy = Position.x p
                /\ EnemyCell.y enemy = Position.y p.

(** Cell [p] is free of snake and obstacles. *)
Definition freeCell (snake : list Position.t) (enemies : list EnemyCell.t)
    (p : Position.t) : Prop :=
  ~ In p snake /\ ~ enemyAt enemies p.

(** The tick reaches the food: the cell in front of the head, along the
    heading of the tick, is on the grid, is none of the snake's cells but
    possibly the last, carries no obstacle, and is the food's cell. *)
Definition eatsFood (g : Game) : Prop :=
  exists head0 rest,
    snakeRef g = head0 :: rest
    /\ inGrid (advance (heading g) head0)
    /\ ~ In (advance (heading g) head0) (removelast (head0 :: rest))
    /\ ~ enemyAt (enemiesRef g) (advance (heading g) head0)
    /\ advance (heading g) head0 = foodRef g.

(** Cell [p] comes no later than cell [q] in the order of the full-grid
    scan: row by row from the top, each row from the left. *)
Definition scanOrder (p q : Position.t) : Prop :=
  Position.y p < Position.y q
  \/ (Position.y p = Position.y q /\ Position.x p <= Position.x q).

(** [p] is the first free cell of the grid in scan order. *)
Definition firstFreeCell (snake : list Position.t) (enemies : list EnemyCell.t)
    (p : Position.t) : Prop :=
  inGrid p /\ freeCell snake enemies p
  /\ forall q, inGrid q -> freeCell snake enemies q -> scanOrder p q.

(** [a] may stand in front of [b] on the leaderboard: higher score first,
    and among equal scores the more recent timestamp first. *)
Definition hofOrder (a b : Entry.t) : Prop :=
  Entry.score a > Entry.score b
  \/ (Entry.score a = Entry.score b /\ Entry.ts a >= Entry.ts b).

(** [m] is the minimum score among the entries of [hallOfFame]. *)
Definition isMinScore (hallOfFame : list Entry.t) (m : Z) : Prop :=
  (exists e, In e hallOfFame /\ Entry.score e = m)
  /\ (forall e, In e hallOfFame -> m <= Entry.score e).

(** The entry a save attempt builds from the state it starts in. *)
Definition entryOf (score level now : Z) (h : Hof) : Entry.t :=
  Entry.mk None (firstn CONFIG.NAME_MAX_CHARS (trim (playerName h))) score level now.

(** The events stay within the game in progress: no new game is started. *)
Definition sameGame (events : list Event) : Prop :=
  Forall (fun e => e <> EvStartGame) events.

(** The event neither issues a fetch nor tears the component down: it
    leaves the request counter and the mounted flag alone. *)
Definition keepsGeneration (e : Event) : Prop :=
  match e with
  | EvFetch _ | EvMount | EvUnmount | EvSaveAnswer _ None => False
  | _ => True
  end.

(** A remote answer honours the [limit(10)] of the query. *)
Definition answerBounded (e : Event) : Prop :=
  match e with
  | EvFetchAnswer _ (FetchData rows) _ => (length rows <= 10)%nat
  | _ => True
  end.

(** Two cells are neighbours on the grid: one step apart along one axis. *)
Definition adjacent (a b : Position.t) : Prop :=
  Z.abs (Position.x a - Position.x b) + Z.abs (Position.y a - Position.y b) = 1.

(** Every cell of the snake is a grid neighbour of the next one. *)
Fixpoint connected (snake : list Position.t) : Prop :=
  match snake with
  | a :: (b :: _) as rest => adjacent a b /\ connected rest
  | _ => True
  end.

(** The cell an enemy sits on. *)
Definition enemyCell (enemy : EnemyCell.t) : Position.t :=
  Position.mk (EnemyCell.x enemy) (EnemyCell.y enemy).

(** Nothing overlaps: the snake does not cross itself, the food lies on
    no snake cell and on no obstacle, and no snake cell lies on an
    obstacle. *)
Definition wellPlaced (g : Game) : Prop :=
  NoDup (snakeRef g)
  /\ freeCell (snakeRef g) (enemiesRef g) (foodRef g)
  /\ (forall seg, In seg (snakeRef g) -> ~ enemyAt (enemiesRef g) seg).

(** Cell [p] lies in the 3x3 block around [head]. *)
Definition nearHead (head p : Position.t) : Prop :=
  Z.abs (Position.x p - Position.x head) <= 1
  /\ Z.abs (Position.y p - Position.y head) <= 1.

(** The tick interval is a number of milliseconds between the floor and
    the initial interval. *)
Definition speedInRange (v : Num) : Prop :=
  exists ms, v = Fin ms /\ CONFIG.MIN_SPEED <= ms <= CONFIG.INITIAL_SPEED.

(** The cells of the grid, row by row. *)
Definition gridCells : list Position.t :=
  flat_map (fun y => map (fun x => Position.mk (Z.of_nat x) (Z.of_nat y)) (seq 0 15))
           (seq 0 15).

Definition Position_eq_dec (a b : Position.t) : {a = b} + {a <> b}.
Proof. decide equality; apply Z.eq_dec. Defined.

(** The alphabet of a sanitized name: digits, capital letters, and the
    nine accented capitals of Hungarian. *)
Definition isUpperNameChar (c : N) : bool :=
  (((48 <=? c) && (c <=? 57))
   || ((65 <=? c) && (c <=? 90))
   || existsb (N.eqb c) [193; 201; 205; 211; 214; 336; 218; 220; 368])%N.

(** An entry as the loader returns it: no id, the name cut to eight. *)
Definition reloaded (e : Entry.t) : Entry.t :=
  Entry.mk None (firstn CONFIG.NAME_MAX_CHARS (Entry.name e))
           (Entry.score e) (Entry.level e) (Entry.ts e).

(** The board is sound: nothing overlaps, the snake is in one piece, and
    it lies on the grid. *)
Definition soundBoard (g : Game) : Prop :=
  wellPlaced g /\ connected (snakeRef g) /\ Forall inGrid (snakeRef g).

(* ====================================================================== *)
(** ** Concrete configurations *)
(* ====================================================================== *)

Definition noDraws : nat -> Z := fun _ => 0.

(** A game in its first tick after [initGame]: the centred snake heading
    right, food three cells ahead, a queued turn. *)
Definition freshGame (queue : list Direction) : Game :=
  mkGame startSnake RIGHT queue (Position.mk 10 7) [] (Fin CONFIG.INITIAL_SPEED)
         0 0 false 0 playing 0 [].

(** The snake of [freshGame] with the food on the cell in front of the
    head. *)
Definition feedingGame : Game :=
  mkGame startSnake RIGHT [] (Position.mk 8 7) [] (Fin CONFIG.INITIAL_SPEED)
         0 0 false 0 playing 0 [].

(** The snake of [freshGame] facing the right wall. *)
Definition wallGame : Game :=
  mkGame [Position.mk 14 7; Position.mk 13 7; Position.mk 12 7]
         RIGHT [] (Position.mk 10 7) [] (Fin CONFIG.INITIAL_SPEED)
         0 0 false 0 playing 0 [].

(** The name [ABC]. *)
Definition nameABC : JSString := [65; 66; 67]%N.

(** A local-only board (no remote configured) at game over, empty list. *)
Definition localBoard : Hof :=
  mkHof false [] false None 0 false false nameABC [].

(** A board with the remote configured, right after mount: the first
    fetch (request 1) is still in flight and nothing is cached. *)
Definition loadingBoard : Hof :=
  mkHof true [] true None 1 true false nameABC [].

(** The same board once the first answer came back with an empty list. *)
Definition onlineBoard : Hof :=
  mkHof true [] false None 1 true false nameABC [].

(** The component as it is mounted: the menu, a one-cell snake, level 1,
    a canvas of 300 pixels. *)
Definition menuSession : Session.t :=
  Session.mk (mkGame [Position.mk 7 7] RIGHT [] (Position.mk 10 7) []
                     (Fin CONFIG.INITIAL_SPEED) 0 0 false 0 menu 0 [])
             1 1 false false 300.

(** Random numbers that are all zero. *)
Definition zeroRandom : Random := mkRandom (fun _ => 0) (fun _ => O) (fun _ => 0).

(** Draws of [spawnFood] that all come out as the cell [p]. *)
Definition drawsAt (p : Position.t) : nat -> Z :=
  fun k => if Nat.even k then Position.x p else Position.y p.

(** The cells of the grid outside [pocket], row by row. *)
Definition cellsOutside (pocket : Position.t -> bool) : list Position.t :=
  filter (fun c => negb (pocket c)) gridCells.

(** Draws of [spawnEnemiesForLevel] that name the cells outside [pocket]
    one after the other; an attempt that places an enemy makes four
    calls, the first two for the cell. Every draw is a grid coordinate. *)
Definition packing (pocket : Position.t -> bool) : Random :=
  mkRandom
    (fun call =>
       let c := nth (call / 4) (cellsOutside pocket) (Position.mk 0 0) in
       if (call mod 4 =? 0)%nat then Position.x c else Position.y c)
    (fun _ => O) (fun _ => 0).

(** The 3x3 block around the centre of the grid, where a level starts the
    head, with the two cells (5,6) and (5,7) to its left: eleven cells. *)
Definition pocket11 (c : Position.t) : bool :=
  (5 <=? Position.x c) && (Position.x c <=? 8)
  && (6 <=? Position.y c) && (Position.y c <=? 8)
  && negb ((Position.x c =? 5) && (Position.y c =? 8)).

(** The same with (5,8): the twelve cells of a 4x3 rectangle. *)
Definition pocket12 (c : Position.t) : bool :=
  (5 <=? Position.x c) && (Position.x c <=? 8)
  && (6 <=? Position.y c) && (Position.y c <=? 8).

(** A session whose level [lvl] has just been cleared: eight foods and
    the bonus on every level so far. *)
Definition clearedSession (lvl : Z) : Session.t :=
  Session.mk (mkGame startSnake RIGHT [] (Position.mk 10 7) [] (levelSpeed lvl)
                     (13 * lvl) (13 * lvl) false 8 levelclear 0 [])
             lvl lvl true false 300.

(** Level 215 as [nextLevel] can set it up: its 214 obstacles on every
    cell outside [pocket11], the first food in front of the head. *)
Definition level215 : Session.t :=
  Session.nextLevel (packing pocket11) (drawsAt (Position.mk 8 7))
                    (clearedSession 214).

(** Fourteen ticks on that level: six that lead the snake around to the
    bottom row of the pocket, then eight that eat, each food drawn on the
    cell the head enters next. The last of them leaves no cell open. *)
Definition fillingRun : list PlayEvent :=
  [KeyDown "ArrowUp"; Tick noDraws;
   KeyDown "ArrowLeft"; Tick noDraws;
   KeyDown "ArrowDown"; Tick noDraws;
   Tick noDraws;
   KeyDown "ArrowRight"; Tick noDraws;
   Tick noDraws;
   KeyDown "ArrowUp"; Tick (drawsAt (Position.mk 8 6));
   Tick (drawsAt (Position.mk 7 6));
   KeyDown "ArrowLeft"; Tick (drawsAt (Position.mk 7 7));
   KeyDown "ArrowDown"; Tick (drawsAt (Position.mk 6 7));
   KeyDown "ArrowLeft"; Tick (drawsAt (Position.mk 5 7));
   Tick (drawsAt (Position.mk 5 6));
   KeyDown "ArrowUp"; Tick (drawsAt (Position.mk 6 6));
   KeyDown "ArrowRight"; Tick noDraws]%string.

(** Level 214 as [nextLevel] can set it up: its 213 obstacles on every
    cell outside [pocket12], the first food at (8,8). *)
Definition level214 : Session.t :=
  Session.nextLevel (packing pocket12) (drawsAt (Position.mk 8 8))
                    (clearedSession 213).

(** Ten ticks on that level and the key for the eleventh: one tick down,
    then nine that eat along the rim of the pocket, each food drawn on
    the cell the head enters next. After the ninth the snake fills the
    pocket, head (6,8) below tail (6,7), and the food it respawns is
    drawn on the tail cell. The eighth food starts the level-clear timer
    of 100 ms; the run goes on before that timer fires. *)
Definition circlingRun : list PlayEvent :=
  [KeyDown "ArrowDown"; Tick noDraws;
   KeyDown "ArrowRight"; Tick (drawsAt (Position.mk 8 7));
   KeyDown "ArrowUp"; Tick (drawsAt (Position.mk 8 6));
   Tick (drawsAt (Position.mk 7 6));
   KeyDown "ArrowLeft"; Tick (drawsAt (Position.mk 6 6));
   Tick (drawsAt (Position.mk 5 6));
   Tick (drawsAt (Position.mk 5 7));
   KeyDown "ArrowDown"; Tick (drawsAt (Position.mk 5 8));
   Tick (drawsAt (Position.mk 6 8));
   KeyDown "ArrowRight"; Tick (drawsAt (Position.mk 6 7));
   KeyDown "ArrowUp"]%string.

(* ====================================================================== *)
(** * Properties of the simulation step *)
(* ====================================================================== *)

(** Case analysis on every test of an [if] left in the goal. *)
Ltac case_tests :=
  repeat match goal with
         | |- context [if ?c then _ else _] => destruct c
         end.

(** ** Reading the boolean tests *)

Lemma same_cell_eq (a b : Position.t) :
  (Position.x a =? Position.x b) && (Position.y a =? Position.y b) = true <-> a = b.
Proof.
  destruct a as [ax ay], b as [bx by_]; simpl.
  rewrite andb_true_iff, !Z.eqb_eq. split.
  - intros [-> ->]; reflexivity.
  - intros H; inversion H; auto.
Qed.

Lemma willCollide_spec (snake : list Position.t) (head : Position.t) :
  willCollide snake head = true <-> In head (removelast snake).
Proof.
  unfold willCollide. rewrite existsb_exists. split.
  - intros [seg [Hin Heq]]. apply same_cell_eq in Heq. subst; assumption.
  - intros Hin. exists head. split; [assumption | apply same_cell_eq; reflexivity].
Qed.

Lemma hitEnemy_spec (enemies : list EnemyCell.t) (head : Position.t) :
  hitEnemy enemies head = true <-> enemyAt enemies head.
Proof.
  unfold hitEnemy, enemyAt. rewrite existsb_exists.
  split; intros [e [Hin H]]; exists e; (split; [assumption|]).
  - apply andb_true_iff in H. rewrite !Z.eqb_eq in H. exact H.
  - apply andb_true_iff. rewrite !Z.eqb_eq. exact H.
Qed.

Lemma outsideGrid_spec (p : Position.t) :
  outsideGrid p = false <-> inGrid p.
Proof.
  unfold outsideGrid, inGrid, CONFIG.GRID_SIZE.
  rewrite !orb_false_iff, !Z.ltb_ge, !Z.geb_leb, !Z.leb_gt. lia.
Qed.

Lemma isBlocked_spec snake enemies (p : Position.t) :
  isBlocked snake enemies p = false <-> freeCell snake enemies p.
Proof.
  unfold isBlocked, freeCell. rewrite orb_false_iff.
  fold (hitEnemy enemies p).
  assert (Hs : existsb (fun seg => (Position.x seg =? Position.x p)
                                   && (Position.y seg =? Position.y p)) snake = true
               <-> In p snake).
  { rewrite existsb_exists. split.
    - intros [seg [Hin Heq]]. apply same_cell_eq in Heq. subst; assumption.
    - intros Hin. exists p. split; [assumption | apply same_cell_eq; reflexivity]. }
  rewrite <- hitEnemy_spec, <- Hs, !not_true_iff_false. tauto.
Qed.

(** ** What a tick leaves behind, branch by branch *)

Lemma moveSnake_heading rnd (g : Game) :
  directionRef (snd (moveSnake rnd g)) = heading g
  /\ inputQueueRef (snd (moveSnake rnd g))
     = snd (processInput (directionRef g) (inputQueueRef g)).
Proof.
  unfold moveSnake, heading.
  destruct (processInput (directionRef g) (inputQueueRef g)) as [dir queue].
  destruct (snakeRef g) as [|head0 rest]; simpl; [auto|].
  case_tests; simpl; auto.
Qed.

(** The outcome of a tick of a non-empty snake, as the source's chain of
    tests decides it. *)
Lemma moveSnake_outcome rnd (g : Game) head0 rest :
  snakeRef g = head0 :: rest ->
  let head := advance (heading g) head0 in
  fst (moveSnake rnd g) =
    if outsideGrid head then CollisionWall
    else if willCollide (head0 :: rest) head then CollisionSelf
    else if hitEnemy (enemiesRef g) head then CollisionEnemy
    else if (Position.x head =? Position.x (foodRef g))
            && (Position.y head =? Position.y (foodRef g)) then Ate
    else Moved.
Proof.
  intros Hs. unfold moveSnake, heading. rewrite Hs.
  destruct (processInput (directionRef g) (inputQueueRef g)) as [dir queue].
  simpl fst.
  case_tests; reflexivity.
Qed.

Lemma removelast_snoc (A : Type) (l : list A) (a : A) :
  removelast (l ++ [a]) = l.
Proof.
  rewrite removelast_app by discriminate. simpl. apply app_nil_r.
Qed.

(** ** C1: the tail cell and the self-collision test *)

(** The self-collision test as the code has it: [snake.slice(0, -1)]
    leaves the last snake cell out before the food is looked at. With the
    new head inside the grid, the tick is a self-collision exactly when
    the new head is one of the snake cells other than the last; a head
    that steps onto the tail cell, with no other segment and no obstacle
    there, goes through the rest of the tick like any other. *)
Lemma moveSnake_self_collision_test
    rnd (g : Game) (head0 : Position.t) (rest : list Position.t)
    (Hsnake : snakeRef g = head0 :: rest)
    (Hin : inGrid (advance (heading g) head0)) :
  let head := advance (heading g) head0 in
  (fst (moveSnake rnd g) = CollisionSelf <-> In head (removelast (head0 :: rest)))
  /\ (forall body tail,
         rest = body ++ [tail] -> head = tail -> ~ In tail (head0 :: body) ->
         fst (moveSnake rnd g) <> CollisionSelf
         /\ (~ enemyAt (enemiesRef g) head ->
             (head = foodRef g ->
              fst (moveSnake rnd g) = Ate
              /\ snakeRef (snd (moveSnake rnd g)) = head :: head0 :: body ++ [tail])
             /\ (head <> foodRef g ->
                 fst (moveSnake rnd g) = Moved
                 /\ snakeRef (snd (moveSnake rnd g)) = head :: head0 :: body))).
Proof.
  intros head.
  pose proof (moveSnake_outcome rnd g head0 rest Hsnake) as Hout.
  cbv zeta in Hout. fold head in Hout.
  apply outsideGrid_spec in Hin. fold head in Hin. rewrite Hin in Hout.
  assert (Hself : fst (moveSnake rnd g) = CollisionSelf
                  <-> In head (removelast (head0 :: rest))).
  { rewrite <- willCollide_spec, Hout.
    destruct (willCollide (head0 :: rest) head); [tauto|].
    split; [|discriminate].
    case_tests; discriminate. }
  split; [exact Hself|].
  intros body tail Hrest Htail Hfresh.
  assert (Hrl : removelast (head0 :: rest) = head0 :: body).
  { rewrite Hrest. change (head0 :: body ++ [tail]) with ((head0 :: body) ++ [tail]).
    apply removelast_snoc. }
  assert (Hno : willCollide (head0 :: rest) head = false).
  { apply not_true_iff_false. rewrite willCollide_spec, Hrl, Htail. exact Hfresh. }
  split.
  - rewrite Hself, Hrl, Htail. exact Hfresh.
  - intros Hfree. rewrite <- hitEnemy_spec in Hfree.
    apply not_true_iff_false in Hfree.
    rewrite Hno, Hfree in Hout.
    unfold moveSnake in *. fold (heading g) in *.
    rewrite (surjective_pairing (processInput (directionRef g) (inputQueueRef g))) in *.
    fold (heading g) in *. rewrite Hsnake in *. fold head in Hout |- *.
    rewrite Hin, Hno, Hfree in *.
    split.
    + intros Hfood.
      assert (Hf : (Position.x head =? Position.x (foodRef g))
                   && (Position.y head =? Position.y (foodRef g)) = true)
        by (apply same_cell_eq; assumption).
      rewrite Hf. simpl. rewrite Hrest. auto.
    + intros Hfood.
      assert (Hf : (Position.x head =? Position.x (foodRef g))
                   && (Position.y head =? Position.y (foodRef g)) = false).
      { apply not_true_iff_false. rewrite same_cell_eq. assumption. }
      rewrite Hf. cbn [fst snd snakeRef]. split; [reflexivity|].
      change (head :: head0 :: rest) with ((head :: nil) ++ head0 :: rest).
      rewrite removelast_app by discriminate. rewrite Hrl. reflexivity.
Qed.

(** While the food lies on no snake cell the test does what its comment
    says ("exclude tail since it will move"): on a snake that does not
    cross itself and touches no obstacle, a head that steps onto the tail
    cell eats nothing, the tick is an ordinary move, and the tail cell is
    vacated. *)
Lemma moveSnake_onto_tail_moves
    rnd (g : Game) (head0 : Position.t) (body : list Position.t) (tail : Position.t) :
  snakeRef g = head0 :: body ++ [tail] ->
  NoDup (snakeRef g) ->
  ~ In (foodRef g) (snakeRef g) ->
  (forall seg, In seg (snakeRef g) -> ~ enemyAt (enemiesRef g) seg) ->
  Forall inGrid (snakeRef g) ->
  advance (heading g) head0 = tail ->
  fst (moveSnake rnd g) = Moved
  /\ snakeRef (snd (moveSnake rnd g)) = tail :: head0 :: body.
Proof.
  intros Hsnake Hsimple Hfood Hclear Hinside Hstep.
  assert (Hlast : In tail (snakeRef g)).
  { rewrite Hsnake. right. apply in_or_app. right. left. reflexivity. }
  assert (Hin : inGrid (advance (heading g) head0)).
  { rewrite Hstep. rewrite Forall_forall in Hinside. apply Hinside. exact Hlast. }
  destruct (moveSnake_self_collision_test rnd g head0 (body ++ [tail]) Hsnake Hin)
    as [_ Htail].
  cbv zeta in Htail. rewrite Hstep in Htail.
  assert (Hfresh : ~ In tail (head0 :: body)).
  { rewrite Hsnake in Hsimple.
    change (head0 :: body ++ [tail]) with ((head0 :: body) ++ [tail]) in Hsimple.
    apply NoDup_remove_2 in Hsimple. rewrite app_nil_r in Hsimple. exact Hsimple. }
  destruct (Htail body tail eq_refl eq_refl Hfresh) as [_ Hmove].
  destruct (Hmove (Hclear tail Hlast)) as [_ Hmoved].
  apply Hmoved. intros Heq. apply Hfood. rewrite <- Heq. exact Hlast.
Qed.

(** C1 is not what the code does once the food lies under the tail cell,
    which a respawn on a full board brings about. On level 214 the 213
    obstacles can leave the snake a pocket of twelve cells; after nine
    foods the snake fills it, head next to tail, and the food respawned
    with no cell open stays on the last draw, here the tail cell. On the
    next tick the head steps onto that cell. The food is eaten, so the
    tail stays, and by C1 the tick is a self-collision; the code, whose
    test leaves the tail out "since it will move", reports the food eaten
    and goes on with head and tail on one cell. *)
Theorem moveSnake_tail_with_food_overlaps :
  let g := play circlingRun (Session.game level214) in
  let head := advance (heading g) (hd (foodRef g) (snakeRef g)) in
  gameState g = playing
  /\ length (snakeRef g) = 12%nat
  /\ length (enemiesRef g) = 213%nat
  /\ NoDup (snakeRef g)
  /\ head = last (snakeRef g) head
  /\ head = foodRef g
  /\ fst (moveSnake noDraws g) = Ate
  /\ fst (moveSnake noDraws g) <> CollisionSelf
  /\ snakeRef (snd (moveSnake noDraws g)) = head :: snakeRef g
  /\ ~ NoDup (snakeRef (snd (moveSnake noDraws g))).
Proof.
  intros g head.
  assert (Hsnake : snakeRef g
                   = map (fun c => Position.mk (fst c) (snd c))
                         [(6, 8); (5, 8); (5, 7); (5, 6); (6, 6); (7, 6);
                          (8, 6); (8, 7); (8, 8); (7, 8); (7, 7); (6, 7)])
    by (vm_compute; reflexivity).
  assert (Hhead : head = Position.mk 6 7) by (vm_compute; reflexivity).
  assert (Hate : fst (moveSnake noDraws g) = Ate) by (vm_compute; reflexivity).
  assert (Hgrown : snakeRef (snd (moveSnake noDraws g)) = head :: snakeRef g)
    by (vm_compute; reflexivity).
  split; [vm_compute; reflexivity|].
  split; [vm_compute; reflexivity|].
  split; [vm_compute; reflexivity|].
  split.
  { rewrite Hsnake.
    match goal with
    | |- NoDup ?l =>
        assert (Hnd : nodup Position_eq_dec l = l) by (vm_compute; reflexivity);
        rewrite <- Hnd; apply NoDup_nodup
    end. }
  split; [vm_compute; reflexivity|].
  split; [vm_compute; reflexivity|].
  split; [exact Hate|].
  split; [rewrite Hate; discriminate|].
  split; [exact Hgrown|].
  rewrite Hgrown. intros Hnd. apply NoDup_cons_iff in Hnd.
  destruct Hnd as [Hnot _]. apply Hnot.
  rewrite Hhead, Hsnake. simpl. do 11 right. left. reflexivity.
Qed.

(** ** C3: a queued reverse turn is discarded *)

Lemma isValidTurn_opposite (currentDir nextDir : Direction) :
  isValidTurn currentDir nextDir = false <-> nextDir = opposite currentDir.
Proof.
  destruct currentDir, nextDir; simpl; split; intros H;
    try reflexivity; discriminate H.
Qed.

(** C3: when the input queue holds a direction, the tick dequeues it; if it
    is the reverse of the current heading, the heading after the tick is
    the heading before it, and otherwise the heading after the tick is the
    dequeued direction. This holds for every tick, also one that ends the
    game. *)
Theorem moveSnake_reverse_turn_discarded
    rnd (g : Game) (nextDir : Direction) (queued : list Direction)
    (Hqueue : inputQueueRef g = nextDir :: queued) :
  (nextDir = opposite (directionRef g) ->
   directionRef (snd (moveSnake rnd g)) = directionRef g)
  /\ (nextDir <> opposite (directionRef g) ->
      directionRef (snd (moveSnake rnd g)) = nextDir)
  /\ inputQueueRef (snd (moveSnake rnd g)) = queued.
Proof.
  destruct (moveSnake_heading rnd g) as [Hd Hq].
  rewrite Hd, Hq. unfold heading. rewrite Hqueue. simpl.
  repeat split.
  - intros Hrev. apply isValidTurn_opposite in Hrev. rewrite Hrev. reflexivity.
  - intros Hfwd. rewrite <- isValidTurn_opposite in Hfwd.
    apply not_false_iff_true in Hfwd. rewrite Hfwd. reflexivity.
Qed.

Lemma moveSnake_reverse_turn_discarded_witness :
  directionRef (snd (moveSnake noDraws (freshGame [LEFT; UP]))) = RIGHT
  /\ directionRef (snd (moveSnake noDraws (freshGame [UP; LEFT]))) = UP
  /\ inputQueueRef (snd (moveSnake noDraws (freshGame [LEFT; UP]))) = [UP].
Proof.
  destruct (moveSnake_reverse_turn_discarded noDraws (freshGame [LEFT; UP])
              LEFT [UP] eq_refl) as [Hrev [_ Hq]].
  destruct (moveSnake_reverse_turn_discarded noDraws (freshGame [UP; LEFT])
              UP [LEFT] eq_refl) as [_ [Hfwd _]].
  split; [|split].
  - apply Hrev. reflexivity.
  - apply Hfwd. discriminate.
  - exact Hq.
Defined.

(** ** C4: a fatal move is not applied to the grid *)

(** C4: the three fatal tests are tried in the order wall, self, obstacle
    and the first that holds decides; and whenever the tick ends the game,
    the snake body, the food and the obstacles are what they were before
    the tick (as are score, speed and the per-level counter), and the phase
    is [gameover]. *)
Theorem moveSnake_terminal_leaves_grid
    rnd (g : Game) (Hterm : terminal (fst (moveSnake rnd g)) = true) :
  (snakeRef (snd (moveSnake rnd g)) = snakeRef g
   /\ foodRef (snd (moveSnake rnd g)) = foodRef g
   /\ enemiesRef (snd (moveSnake rnd g)) = enemiesRef g
   /\ score (snd (moveSnake rnd g)) = score g
   /\ speedRef (snd (moveSnake rnd g)) = speedRef g
   /\ foodEatenThisLevel (snd (moveSnake rnd g)) = foodEatenThisLevel g
   /\ gameState (snd (moveSnake rnd g)) = gameover)
  /\ exists head0 rest,
      snakeRef g = head0 :: rest
      /\ let head := advance (heading g) head0 in
         (fst (moveSnake rnd g) = CollisionWall <-> ~ inGrid head)
         /\ (fst (moveSnake rnd g) = CollisionSelf
             <-> inGrid head /\ In head (removelast (head0 :: rest)))
         /\ (fst (moveSnake rnd g) = CollisionEnemy
             <-> inGrid head /\ ~ In head (removelast (head0 :: rest))
                 /\ enemyAt (enemiesRef g) head).
Proof.
  split.
  - revert Hterm. unfold moveSnake.
    destruct (processInput (directionRef g) (inputQueueRef g)) as [dir queue].
    destruct (snakeRef g) as [|head0 rest] eqn:Hs; [discriminate|].
    case_tests; simpl; intros Hterm; try discriminate Hterm;
      repeat split; solve [reflexivity | exact Hs].
  - destruct (snakeRef g) as [|head0 rest] eqn:Hs.
    + revert Hterm. unfold moveSnake. rewrite Hs.
      destruct (processInput (directionRef g) (inputQueueRef g)); discriminate.
    + exists head0, rest. split; [reflexivity|]. intros head.
      rewrite (moveSnake_outcome rnd g head0 rest Hs). cbv zeta. fold head.
      rewrite <- outsideGrid_spec, <- willCollide_spec, <- hitEnemy_spec.
      destruct (outsideGrid head), (willCollide (head0 :: rest) head),
        (hitEnemy (enemiesRef g) head);
        case_tests;
        repeat split; try tauto; try discriminate; try congruence;
        intros; intuition (try discriminate; try congruence).
Qed.

Lemma moveSnake_terminal_leaves_grid_witness :
  fst (moveSnake noDraws wallGame) = CollisionWall
  /\ snakeRef (snd (moveSnake noDraws wallGame)) = snakeRef wallGame
  /\ foodRef (snd (moveSnake noDraws wallGame)) = foodRef wallGame
  /\ enemiesRef (snd (moveSnake noDraws wallGame)) = enemiesRef wallGame.
Proof.
  destruct (moveSnake_terminal_leaves_grid noDraws wallGame eq_refl)
    as [[Hs [Hf [He _]]] _].
  split; [reflexivity|]. split; [exact Hs|]. split; [exact Hf | exact He].
Defined.

(** ** C8: the tick interval after food is eaten *)

(** A tick eats exactly when its new head reaches the food. *)
Lemma moveSnake_ate_iff rnd (g : Game) :
  fst (moveSnake rnd g) = Ate <-> eatsFood g.
Proof.
  unfold eatsFood. destruct (snakeRef g) as [|head0 rest] eqn:Hsnake.
  { split; [|intros [h [r [Habs _]]]; discriminate Habs].
    unfold moveSnake. rewrite Hsnake.
    destruct (processInput (directionRef g) (inputQueueRef g)). discriminate. }
  rewrite (moveSnake_outcome rnd g head0 rest Hsnake). cbv zeta.
  set (head := advance (heading g) head0).
  pose proof (outsideGrid_spec head) as Hgrid.
  pose proof (willCollide_spec (head0 :: rest) head) as Hself.
  pose proof (hitEnemy_spec (enemiesRef g) head) as Henemy.
  pose proof (same_cell_eq head (foodRef g)) as Hfood.
  split.
  - intros Hate. exists head0, rest. split; [reflexivity|].
    destruct (outsideGrid head); [discriminate|].
    destruct (willCollide (head0 :: rest) head); [discriminate|].
    destruct (hitEnemy (enemiesRef g) head); [discriminate|].
    destruct ((Position.x head =? Position.x (foodRef g))
              && (Position.y head =? Position.y (foodRef g))); [|discriminate].
    split; [apply Hgrid; reflexivity|].
    split; [intros Hin; apply Hself in Hin; discriminate|].
    split; [intros Hat; apply Henemy in Hat; discriminate|].
    apply Hfood. reflexivity.
  - intros [h [r [Heq [Hin [Hoff [Hclear Hon]]]]]].
    injection Heq as <- <-. fold head in Hin, Hoff, Hclear, Hon.
    apply Hgrid in Hin. rewrite Hin.
    destruct (willCollide (head0 :: rest) head);
      [exfalso; apply Hoff, Hself; reflexivity|].
    destruct (hitEnemy (enemiesRef g) head);
      [exfalso; apply Hclear, Henemy; reflexivity|].
    apply Hfood in Hon. rewrite Hon. reflexivity.
Qed.

(** C8: a tick whose new head reaches the food, and no other tick, eats,
    and it replaces the interval by [speedUp] of it; every other tick
    leaves the interval as it is. On a finite interval [speedUp] is
    [max (current - 5) 60], hence at least 60; on an interval for which
    that expression is not finite (NaN, +Infinity) it is the initial 150;
    so the result is finite in every case, and so is the interval the game
    loop uses. *)
Theorem moveSnake_speed_step rnd (g : Game) :
  (eatsFood g ->
   fst (moveSnake rnd g) = Ate
   /\ speedRef (snd (moveSnake rnd g)) = speedUp (speedRef g))
  /\ (~ eatsFood g ->
      fst (moveSnake rnd g) <> Ate
      /\ speedRef (snd (moveSnake rnd g)) = speedRef g)
  /\ speedRef (snd (moveSnake rnd g))
     = (if match fst (moveSnake rnd g) with Ate => true | _ => false end
        then speedUp (speedRef g) else speedRef g)
  /\ (forall current : Z,
         speedUp (Fin current)
         = Fin (Z.max (current - CONFIG.SPEED_DECREASE) CONFIG.MIN_SPEED)
         /\ exists v, speedUp (Fin current) = Fin v /\ CONFIG.MIN_SPEED <= v)
  /\ speedUp NaN = Fin CONFIG.INITIAL_SPEED
  /\ speedUp PosInf = Fin CONFIG.INITIAL_SPEED
  /\ speedUp NegInf = Fin CONFIG.MIN_SPEED
  /\ (forall v, isFinite (speedUp v) = true)
  /\ (forall g', isFinite (loopSpeed g') = true).
Proof.
  assert (Hstep : speedRef (snd (moveSnake rnd g))
                  = (if match fst (moveSnake rnd g) with Ate => true | _ => false end
                     then speedUp (speedRef g) else speedRef g)).
  { unfold moveSnake.
    destruct (processInput (directionRef g) (inputQueueRef g)) as [dir queue].
    destruct (snakeRef g) as [|head0 rest]; [reflexivity|].
    destruct (outsideGrid _); [reflexivity|].
    destruct (willCollide _ _); [reflexivity|].
    destruct (hitEnemy _ _); [reflexivity|].
    destruct (_ && _); reflexivity. }
  pose proof (moveSnake_ate_iff rnd g) as Hate.
  split; [|split; [|split; [exact Hstep|]]].
  - intros Heats. apply Hate in Heats. rewrite Hstep, Heats. split; reflexivity.
  - intros Hnot. assert (Hne : fst (moveSnake rnd g) <> Ate) by tauto.
    split; [exact Hne|]. rewrite Hstep.
    destruct (fst (moveSnake rnd g)); try reflexivity. contradiction Hne. reflexivity.
  - split; [|split; [|split; [|split; [|split]]]]; try reflexivity.
    + intros current. split; [reflexivity|].
      exists (Z.max (current - CONFIG.SPEED_DECREASE) CONFIG.MIN_SPEED).
      split; [reflexivity | apply Z.le_max_r].
    + intros [z| | |]; reflexivity.
    + intros g'. unfold loopSpeed. destruct (speedRef g'); reflexivity.
Qed.

Lemma moveSnake_speed_step_witness :
  fst (moveSnake noDraws feedingGame) = Ate
  /\ speedRef (snd (moveSnake noDraws feedingGame)) = Fin 145.
Proof.
  destruct (moveSnake_speed_step noDraws feedingGame) as [Heats _].
  apply Heats.
  exists (Position.mk 7 7), [Position.mk 6 7; Position.mk 5 7].
  split; [reflexivity|].
  split; [vm_compute; repeat split; discriminate|].
  split; [simpl; intros [H|[H|[]]]; discriminate H|].
  split; [intros [e [[] _]] | reflexivity].
Defined.

(** ** C2: where the food is respawned *)

Section SpawnFoodFacts.
Variable rnd : nat -> Z.
Variable snake : list Position.t.
Variable enemies : list EnemyCell.t.

Local Abbreviation blocked := (isBlocked snake enemies).

(** The sampling loop stops at some draw [k] of the ones it is allowed;
    every earlier draw was blocked, and if the draw it stops at is blocked
    too, it is the last one allowed. *)
Lemma sampleFood_spec (retries i : nat) :
  exists k, (k <= retries)%nat
            /\ sampleFood rnd snake enemies i retries = draw rnd (i + k)
            /\ (forall j, (j < k)%nat -> blocked (draw rnd (i + j)) = true)
            /\ (blocked (sampleFood rnd snake enemies i retries) = true -> k = retries).
Proof.
  revert i. induction retries as [|r IH]; intros i; simpl.
  - exists O. rewrite Nat.add_0_r. repeat split; auto. intros j Hj. lia.
  - destruct (blocked (draw rnd i)) eqn:Hb.
    + destruct (IH (S i)) as [k [Hk [Heq [Hprev Hlast]]]].
      exists (S k). replace (i + S k)%nat with (S i + k)%nat by lia.
      split; [lia|]. split; [exact Heq|]. split.
      * intros [|j] Hj; [rewrite Nat.add_0_r; exact Hb|].
        replace (i + S j)%nat with (S i + j)%nat by lia. apply Hprev. lia.
      * intros H. f_equal. auto.
    + exists O. rewrite Nat.add_0_r.
      split; [lia|]. split; [reflexivity|]. split.
      * intros j Hj. lia.
      * intros H. congruence.
Qed.

Lemma scanRow_None (y : Z) (n : nat) (x : Z) :
  scanRow snake enemies y x n = None ->
  forall j, 0 <= j < Z.of_nat n -> blocked (Position.mk (x + j) y) = true.
Proof.
  revert x. induction n as [|n IH]; intros x Hscan j Hj; [lia|].
  simpl in Hscan.
  destruct (blocked (Position.mk x y)) eqn:Hb; simpl in Hscan; [|discriminate].
  destruct (Z.eq_dec j 0) as [->|Hne]; [rewrite Z.add_0_r; exact Hb|].
  replace (x + j) with ((x + 1) + (j - 1)) by lia.
  apply IH; [assumption | lia].
Qed.

Lemma scanRow_Some (y : Z) (n : nat) (x : Z) (c : Position.t) :
  scanRow snake enemies y x n = Some c ->
  blocked c = false
  /\ exists j, 0 <= j < Z.of_nat n /\ c = Position.mk (x + j) y
               /\ forall j', 0 <= j' < j -> blocked (Position.mk (x + j') y) = true.
Proof.
  revert x. induction n as [|n IH]; intros x Hscan; [discriminate|].
  simpl in Hscan.
  destruct (blocked (Position.mk x y)) eqn:Hb; simpl in Hscan.
  - destruct (IH _ Hscan) as [Hfree [j [Hj [Hc Hprev]]]].
    split; [assumption|]. exists (j + 1). repeat split; try lia.
    + rewrite Hc. f_equal. lia.
    + intros j' Hj'. destruct (Z.eq_dec j' 0) as [->|Hne];
        [rewrite Z.add_0_r; exact Hb|].
      replace (x + j') with ((x + 1) + (j' - 1)) by lia. apply Hprev. lia.
  - inversion Hscan; subst c. split; [assumption|].
    exists 0. rewrite Z.add_0_r. repeat split; try lia.
Qed.

Lemma scanGrid_None (n : nat) (y : Z) :
  scanGrid snake enemies y n = None ->
  forall i j, 0 <= i < Z.of_nat n -> 0 <= j < CONFIG.GRID_SIZE ->
              blocked (Position.mk j (y + i)) = true.
Proof.
  revert y. induction n as [|n IH]; intros y Hscan i j Hi Hj; [lia|].
  cbn [scanGrid] in Hscan.
  destruct (scanRow snake enemies y 0 (Z.to_nat CONFIG.GRID_SIZE)) eqn:Hrow;
    [discriminate|].
  destruct (Z.eq_dec i 0) as [->|Hne].
  - rewrite Z.add_0_r.
    apply (scanRow_None _ _ _ Hrow j). unfold CONFIG.GRID_SIZE in *. lia.
  - replace (y + i) with ((y + 1) + (i - 1)) by lia.
    apply IH; [assumption | lia | assumption].
Qed.

Lemma scanGrid_Some (n : nat) (y : Z) (c : Position.t) :
  scanGrid snake enemies y n = Some c ->
  blocked c = false
  /\ y <= Position.y c < y + Z.of_nat n
  /\ 0 <= Position.x c < CONFIG.GRID_SIZE
  /\ forall q, 0 <= Position.x q < CONFIG.GRID_SIZE ->
               y <= Position.y q ->
               blocked q = false -> scanOrder c q.
Proof.
  revert y. induction n as [|n IH]; intros y Hscan; [discriminate|].
  cbn [scanGrid] in Hscan.
  destruct (scanRow snake enemies y 0 (Z.to_nat CONFIG.GRID_SIZE)) as [p|] eqn:Hrow.
  - injection Hscan as Hpc. subst p.
    destruct (scanRow_Some _ _ _ _ Hrow) as [Hfree [j [Hj [Hc Hprev]]]].
    split; [assumption|]. subst c. cbn [Position.x Position.y].
    unfold CONFIG.GRID_SIZE in *. split; [lia|]. split; [lia|].
    intros [qx qy] Hqx Hqy Hq. unfold scanOrder. cbn [Position.x Position.y] in *.
    destruct (Z.eq_dec qy y) as [->|Hne]; [right|left; lia].
    split; [reflexivity|].
    destruct (Z_le_gt_dec j qx) as [|Hgt]; [assumption|].
    specialize (Hprev qx ltac:(lia)). rewrite Z.add_0_l in Hprev. congruence.
  - destruct (IH _ Hscan) as [Hfree [Hy [Hx Hfirst]]].
    split; [assumption|]. split; [lia|]. split; [lia|].
    intros [qx qy] Hqx Hqy Hq. cbn [Position.x Position.y] in *.
    destruct (Z.eq_dec qy y) as [->|Hne].
    + pose proof (scanRow_None _ _ _ Hrow qx) as Hb.
      unfold CONFIG.GRID_SIZE in *. rewrite Z.add_0_l in Hb.
      rewrite Hb in Hq by lia. discriminate.
    + apply Hfirst; cbn [Position.x Position.y]; [assumption | lia | assumption].
Qed.

(** C2, amended: whenever the grid has at least one cell free of snake and
    obstacles, the respawned food is on a free cell. It is the first draw
    of at most 300 that is free; when all 300 draws are blocked it is the
    first free cell of the grid scanned row by row. (How the draws are
    distributed is outside this statement.) *)
Theorem spawnFood_on_free_cell
    (Hroom : exists c, inGrid c /\ freeCell snake enemies c) :
  freeCell snake enemies (spawnFood rnd snake enemies)
  /\ ((exists k, (k < 300)%nat
                 /\ spawnFood rnd snake enemies = draw rnd k
                 /\ forall j, (j < k)%nat -> ~ freeCell snake enemies (draw rnd j))
      \/ ((forall j, (j < 300)%nat -> ~ freeCell snake enemies (draw rnd j))
          /\ firstFreeCell snake enemies (spawnFood rnd snake enemies))).
Proof.
  destruct Hroom as [c [Hc Hfree]].
  apply isBlocked_spec in Hfree.
  unfold spawnFood.
  destruct (sampleFood_spec 299 0) as [k [Hk [Heq [Hprev Hlast]]]].
  rewrite Nat.add_0_l in Heq.
  assert (Hprev0 : forall j, (j < k)%nat -> blocked (draw rnd j) = true)
    by (intros j Hj; apply (Hprev j Hj)).
  assert (Hprev' : forall j, (j < k)%nat -> ~ freeCell snake enemies (draw rnd j)).
  { intros j Hj. rewrite <- isBlocked_spec, Hprev0 by assumption. discriminate. }
  destruct (blocked (sampleFood rnd snake enemies 0 299)) eqn:Hb.
  - specialize (Hlast eq_refl). subst k.
    assert (Hall : forall j, (j < 300)%nat -> ~ freeCell snake enemies (draw rnd j)).
    { intros j Hj. destruct (Nat.eq_dec j 299) as [->|Hne].
      - rewrite <- isBlocked_spec, <- Heq, Hb. discriminate.
      - apply Hprev'. lia. }
    destruct (scanGrid snake enemies 0 (Z.to_nat CONFIG.GRID_SIZE)) as [p|] eqn:Hscan.
    + destruct (scanGrid_Some _ _ _ Hscan) as [Hp [Hy [Hx Hfirst]]].
      assert (Hff : firstFreeCell snake enemies p).
      { unfold firstFreeCell, inGrid. unfold CONFIG.GRID_SIZE in *.
        change (Z.of_nat (Z.to_nat 15)) with 15 in Hy.
        repeat split; try lia.
        - apply isBlocked_spec in Hp. apply Hp.
        - apply isBlocked_spec in Hp. apply Hp.
        - intros q [Hqx Hqy] Hq. apply Hfirst; try lia.
          apply isBlocked_spec. exact Hq. }
      split; [apply Hff | right; split; assumption].
    + exfalso. destruct c as [cx cy]. destruct Hc as [Hcx Hcy].
      cbn [Position.x Position.y] in *.
      pose proof (scanGrid_None _ _ Hscan cy cx) as Hbl.
      unfold CONFIG.GRID_SIZE in *.
      change (Z.of_nat (Z.to_nat 15)) with 15 in Hbl. rewrite Z.add_0_l in Hbl.
      rewrite Hbl in Hfree by lia. discriminate.
  - split; [apply isBlocked_spec; exact Hb|].
    left. exists k. repeat split; [lia | exact Heq | exact Hprev'].
Qed.

End SpawnFoodFacts.

(** C2, as stated, fails on a board the game can reach. Level 215 can
    start with its 214 obstacles around a pocket of eleven cells; eight
    foods later the snake fills the pocket, so the respawn of the eighth
    tick finds every cell of the grid taken: the scan comes back empty
    and the food stays on the last draw, here the obstacle cell (0,0). *)
Lemma spawnFood_full_board_on_obstacle :
  let g := play fillingRun (Session.game level215) in
  gameState g = playing
  /\ length (snakeRef g) = 11%nat
  /\ length (enemiesRef g) = 214%nat
  /\ foodRef g = spawnFood noDraws (snakeRef g) (enemiesRef g)
  /\ enemyAt (enemiesRef g) (spawnFood noDraws (snakeRef g) (enemiesRef g))
  /\ ~ freeCell (snakeRef g) (enemiesRef g)
               (spawnFood noDraws (snakeRef g) (enemiesRef g)).
Proof.
  intros g.
  assert (Hat : enemyAt (enemiesRef g)
                        (spawnFood noDraws (snakeRef g) (enemiesRef g))).
  { apply hitEnemy_spec. vm_compute. reflexivity. }
  split; [vm_compute; reflexivity|].
  split; [vm_compute; reflexivity|].
  split; [vm_compute; reflexivity|].
  split; [vm_compute; reflexivity|].
  split; [exact Hat|].
  intros [_ Hno]. exact (Hno Hat).
Qed.

Lemma spawnFood_on_free_cell_witness :
  freeCell startSnake [] (spawnFood noDraws startSnake []).
Proof.
  apply (spawnFood_on_free_cell noDraws startSnake []).
  exists (Position.mk 0 0). split.
  - vm_compute. repeat split; discriminate.
  - split.
    + simpl. intros [H|[H|[H|[]]]]; discriminate H.
    + intros [e [[] _]].
Defined.

(* ====================================================================== *)
(** * Properties of the hall of fame *)
(* ====================================================================== *)

(** ** The comparator and the sort *)

Lemma compareEntries_hofOrder (a b : Entry.t) :
  (compareEntries a b <=? 0) = true <-> hofOrder a b.
Proof.
  unfold compareEntries, hofOrder. rewrite Z.leb_le.
  destruct (Entry.score b - Entry.score a =? 0) eqn:Hd.
  - apply Z.eqb_eq in Hd. lia.
  - apply Z.eqb_neq in Hd. lia.
Qed.

Lemma hofOrder_total (a b : Entry.t) : hofOrder a b \/ hofOrder b a.
Proof. unfold hofOrder. lia. Qed.

Lemma hofOrder_trans (a b c : Entry.t) :
  hofOrder a b -> hofOrder b c -> hofOrder a c.
Proof. unfold hofOrder. lia. Qed.

Lemma insertEntry_perm (a : Entry.t) (l : list Entry.t) :
  Permutation (a :: l) (insertEntry a l).
Proof.
  induction l as [|b rest IH]; simpl; [reflexivity|].
  destruct (compareEntries a b <=? 0); [reflexivity|].
  rewrite perm_swap. constructor. exact IH.
Qed.

Lemma sortEntries_perm (l : list Entry.t) : Permutation l (sortEntries l).
Proof.
  induction l as [|a rest IH]; simpl; [constructor|].
  rewrite <- insertEntry_perm. constructor. exact IH.
Qed.

Lemma insertEntry_sorted (a : Entry.t) (l : list Entry.t) :
  StronglySorted hofOrder l -> StronglySorted hofOrder (insertEntry a l).
Proof.
  induction 1 as [|b rest Hsorted IH Hall]; simpl.
  - repeat constructor.
  - destruct (compareEntries a b <=? 0) eqn:Hab.
    + apply compareEntries_hofOrder in Hab.
      constructor; [constructor; assumption|].
      constructor; [assumption|].
      eapply Forall_impl; [|exact Hall].
      intros c Hbc. exact (hofOrder_trans _ _ _ Hab Hbc).
    + constructor; [exact IH|].
      assert (Hba : hofOrder b a).
      { destruct (hofOrder_total a b) as [H|H]; [|exact H].
        apply compareEntries_hofOrder in H. congruence. }
      eapply Permutation_Forall; [apply insertEntry_perm|].
      constructor; assumption.
Qed.

Lemma sortEntries_sorted (l : list Entry.t) :
  StronglySorted hofOrder (sortEntries l).
Proof.
  induction l as [|a rest IH]; simpl; [constructor|].
  apply insertEntry_sorted. exact IH.
Qed.

Lemma StronglySorted_firstn (A : Type) (R : A -> A -> Prop) (n : nat) (l : list A) :
  StronglySorted R l -> StronglySorted R (firstn n l).
Proof.
  revert l. induction n as [|n IH]; intros l Hl; [constructor|].
  destruct Hl as [|a rest Hrest Hall]; simpl; [constructor|].
  constructor; [apply IH; exact Hrest|].
  rewrite Forall_forall in *. intros x Hx. apply Hall.
  rewrite <- (firstn_skipn n rest). apply in_or_app. left. exact Hx.
Qed.

Lemma StronglySorted_app_order (A : Type) (R : A -> A -> Prop) (l1 l2 : list A) :
  StronglySorted R (l1 ++ l2) ->
  forall a b, In a l1 -> In b l2 -> R a b.
Proof.
  induction l1 as [|x l1 IH]; simpl; intros Hs a b Ha Hb; [contradiction|].
  apply StronglySorted_inv in Hs. destruct Hs as [Hrest Hall].
  destruct Ha as [->|Ha].
  - rewrite Forall_forall in Hall. apply Hall. apply in_or_app. right. exact Hb.
  - exact (IH Hrest a b Ha Hb).
Qed.

(** ** C5: the merged leaderboard *)

Lemma entriesOfRows_length (now : Z) (rows : list Row) :
  (length (entriesOfRows now rows) <= length rows)%nat.
Proof.
  unfold entriesOfRows. induction rows as [|row rows IH]; simpl; [lia|].
  rewrite length_app. destruct (entryOfRow now row); simpl; lia.
Qed.

Lemma mergeHallOfFame_length (entry : Entry.t) (prev : list Entry.t) :
  (length (mergeHallOfFame entry prev) <= 10)%nat.
Proof. unfold mergeHallOfFame. apply firstn_le_length. Qed.

(** Ten entries at most is an invariant of the component, as long as the
    remote honours the limit of the query. *)
Lemma step_board_bounded (h : Hof) (e : Event) :
  answerBounded e ->
  (length (hallOfFame h) <= 10)%nat ->
  (length (hallOfFame (step h e)) <= 10)%nat.
Proof.
  intros Hans Hlen.
  destruct e as [showLoading|requestId res now|requestId|score level now
                |entry error|sanitized| | |]; cbn [step].
  - destruct showLoading; exact Hlen.
  - unfold loadHallOfFameOnline_resume.
    destruct (negb (hofIsMountedRef h)); [exact Hlen|].
    destruct (negb (hofRequestIdRef h =? requestId)%nat); [exact Hlen|].
    destruct res as [details|rows]; [exact Hlen|].
    cbn [hallOfFame setHofLoading setHofError setHallOfFame].
    cbn [answerBounded] in Hans.
    pose proof (entriesOfRows_length now rows). lia.
  - unfold hofLoadingTimeout.
    destruct (negb (hofIsMountedRef h)); [exact Hlen|].
    destruct (negb (hofRequestIdRef h =? requestId)%nat); [exact Hlen|].
    destruct (length (hallOfFame h) =? 0)%nat; exact Hlen.
  - unfold handleSaveScore_start. case_tests; try exact Hlen;
      destruct (firstn CONFIG.NAME_MAX_CHARS (trim (playerName h)));
      solve [exact Hlen | apply mergeHallOfFame_length].
  - unfold handleSaveScore_resume. destruct error; [apply mergeHallOfFame_length|].
    cbn [hofIsMountedRef setHallOfFame].
    destruct (hofIsMountedRef h); apply mergeHallOfFame_length.
  - exact Hlen.
  - exact Hlen.
  - unfold mountHof. destruct (negb (hasSupabaseConfig h)); exact Hlen.
  - exact Hlen.
Qed.

Lemma run_board_bounded (events : list Event) (h : Hof) :
  Forall answerBounded events ->
  (length (hallOfFame h) <= 10)%nat ->
  (length (hallOfFame (run events h)) <= 10)%nat.
Proof.
  revert h. induction events as [|e events IH]; intros h Hans Hlen; [exact Hlen|].
  inversion Hans as [|e' events' He Hrest]; subst. simpl.
  apply IH; [exact Hrest | apply step_board_bounded; assumption].
Qed.

(** C5: for every leaderboard and every new entry, the list produced by the
    merge has at most 10 entries and is sorted by score descending, then
    timestamp descending: every entry has a higher score than each entry
    after it, or the same score and a timestamp at least as recent. Its
    entries are the new entry and entries of the old list. A leaderboard
    of at most 10 entries stays so under every event of the component,
    remote answers being limited to 10 rows as the query asks. *)
Theorem mergeHallOfFame_bounded_sorted (entry : Entry.t) (prev : list Entry.t) :
  (length (mergeHallOfFame entry prev) <= 10)%nat
  /\ StronglySorted hofOrder (mergeHallOfFame entry prev)
  /\ length (mergeHallOfFame entry prev) = Nat.min 10 (S (length prev))
  /\ (forall e, In e (mergeHallOfFame entry prev) -> e = entry \/ In e prev)
  /\ (forall events h,
         Forall answerBounded events ->
         (length (hallOfFame h) <= 10)%nat ->
         (length (hallOfFame (run events h)) <= 10)%nat).
Proof.
  split; [apply mergeHallOfFame_length|].
  split; [apply StronglySorted_firstn, sortEntries_sorted|].
  split; [|split; [|exact run_board_bounded]]; unfold mergeHallOfFame.
  - rewrite length_firstn, <- (Permutation_length (sortEntries_perm (entry :: prev))).
    reflexivity.
  - intros e He.
    assert (Hin : In e (sortEntries (entry :: prev))).
    { rewrite <- (firstn_skipn 10 (sortEntries (entry :: prev))).
      apply in_or_app. left. exact He. }
    apply (Permutation_in _ (Permutation_sym (sortEntries_perm (entry :: prev)))) in Hin.
    destruct Hin as [<-|Hin]; auto.
Qed.

(** ** C6: which scores qualify *)

Lemma fold_min_spec (l : list Entry.t) (init : Z) :
  let m := fold_left (fun min entry => Z.min min (Entry.score entry)) l init in
  m <= init
  /\ (forall e, In e l -> m <= Entry.score e)
  /\ (m = init \/ exists e, In e l /\ Entry.score e = m).
Proof.
  revert init. induction l as [|a rest IH]; intros init; simpl.
  - repeat split; [lia | contradiction | left; reflexivity].
  - destruct (IH (Z.min init (Entry.score a))) as [Hle [Hall Hex]].
    split; [lia|]. split.
    + intros e [<-|He]; [lia | apply Hall; exact He].
    + destruct Hex as [Heq|[e [He Hs]]].
      * destruct (Z.min_spec init (Entry.score a)) as [[_ Hm]|[_ Hm]].
        -- left. rewrite Heq. exact Hm.
        -- right. exists a. split; [left; reflexivity|].
           rewrite Heq. symmetry. exact Hm.
      * right. exists e. split; [right; exact He | exact Hs].
Qed.

Lemma getHofCutoff_spec (hallOfFame : list Entry.t) :
  match getHofCutoff hallOfFame with
  | None => (length hallOfFame < 10)%nat
  | Some cutoff => (10 <= length hallOfFame)%nat /\ isMinScore hallOfFame cutoff
  end.
Proof.
  unfold getHofCutoff.
  destruct (length hallOfFame <? 10)%nat eqn:Hlen.
  - apply Nat.ltb_lt. exact Hlen.
  - apply Nat.ltb_ge in Hlen.
    destruct hallOfFame as [|first rest] eqn:Hl; [simpl in Hlen; lia|].
    rewrite <- Hl in *. split; [exact Hlen|].
    destruct (fold_min_spec hallOfFame (Entry.score first)) as [Hle [Hall Hex]].
    split; [|exact Hall].
    destruct Hex as [Heq|Hex]; [|exact Hex].
    exists first. split; [rewrite Hl; left; reflexivity | symmetry; exact Heq].
Qed.

Lemma isMinScore_unique (hallOfFame : list Entry.t) (m m' : Z) :
  isMinScore hallOfFame m -> isMinScore hallOfFame m' -> m = m'.
Proof.
  intros [[e [He Hs]] Hall] [[e' [He' Hs']] Hall'].
  pose proof (Hall e' He'). pose proof (Hall' e He). lia.
Qed.

Lemma qualifiesForHof_spec (hallOfFame : list Entry.t) (candidateScore : Z) :
  qualifiesForHof hallOfFame candidateScore = true
  <-> 0 < candidateScore
      /\ ((length hallOfFame < 10)%nat
          \/ exists m, isMinScore hallOfFame m /\ m < candidateScore).
Proof.
  unfold qualifiesForHof.
  destruct (candidateScore <=? 0) eqn:Hpos.
  - apply Z.leb_le in Hpos. split; [discriminate | lia].
  - apply Z.leb_gt in Hpos.
    pose proof (getHofCutoff_spec hallOfFame) as Hcut.
    destruct (length hallOfFame <? 10)%nat eqn:Hlen.
    + apply Nat.ltb_lt in Hlen. tauto.
    + apply Nat.ltb_ge in Hlen.
      destruct (getHofCutoff hallOfFame) as [cutoff|]; [|lia].
      destruct Hcut as [_ Hmin]. rewrite Z.gtb_ltb, Z.ltb_lt. split.
      * intros Hgt. split; [exact Hpos|]. right. exists cutoff. auto.
      * intros [_ [Hlt|[m [Hm Hgt]]]]; [lia|].
        rewrite (isMinScore_unique _ _ _ Hmin Hm). exact Hgt.
Qed.

(** C6: a score qualifies exactly when it is greater than 0 and either the
    leaderboard holds fewer than 10 entries or the score is strictly above
    the minimum score on it. A score of 0 qualifies for no leaderboard,
    and a save attempt with score 0 is refused and changes nothing. *)
Theorem qualifiesForHof_iff (hallOfFame0 : list Entry.t) (candidateScore : Z) :
  (qualifiesForHof hallOfFame0 candidateScore = true
   <-> 0 < candidateScore
       /\ ((length hallOfFame0 < 10)%nat
           \/ exists m, isMinScore hallOfFame0 m /\ m < candidateScore))
  /\ qualifiesForHof hallOfFame0 0 = false
  /\ (forall level now error h,
         handleSaveScore_start 0 level now h = SaveRefused
         /\ handleSaveScore 0 level now error h = h).
Proof.
  split; [apply qualifiesForHof_spec|]. split; [reflexivity|].
  intros level now error h.
  assert (Hstart : handleSaveScore_start 0 level now h = SaveRefused).
  { unfold handleSaveScore_start. rewrite orb_true_r. reflexivity. }
  split; [exact Hstart|]. unfold handleSaveScore. rewrite Hstart. reflexivity.
Qed.

(** ** The guards of a save attempt *)

Lemma length_zero_nil (A : Type) (l : list A) :
  (length l =? 0)%nat = true <-> l = [].
Proof.
  destruct l; simpl; split; intros H; try reflexivity; discriminate H.
Qed.

(** A save attempt gets past its early returns exactly when nothing was
    saved yet in this game, the score is positive, the online list is not
    still loading over an empty cache, the score qualifies, and the trimmed
    name is not empty; it then builds its entry and either finishes locally
    or sends the insert. *)
Lemma handleSaveScore_start_accepts (score level now : Z) (h : Hof) :
  (handleSaveScore_start score level now h <> SaveRefused
   <-> hasSavedScore h = false
       /\ 0 < score
       /\ ~ (hasSupabaseConfig h = true /\ hofLoading h = true /\ hallOfFame h = [])
       /\ qualifiesForHof (hallOfFame h) score = true
       /\ firstn CONFIG.NAME_MAX_CHARS (trim (playerName h)) <> [])
  /\ (handleSaveScore_start score level now h <> SaveRefused ->
      handleSaveScore_start score level now h
      = if hasSupabaseConfig h
        then SaveAwait (entryOf score level now h)
               (logInsert (mkInsertRow (Entry.name (entryOf score level now h)) score level)
                          (setHofError None h))
        else SaveDone (saveLocally (entryOf score level now h) h)).
Proof.
  assert (Hoff : forall P : Prop, SaveRefused <> SaveRefused -> P)
    by (intros P H; exfalso; apply H; reflexivity).
  unfold handleSaveScore_start, entryOf.
  destruct (hasSavedScore h); cbn [orb].
  { split; [split; [apply Hoff | intros [H _]; discriminate H] | apply Hoff]. }
  destruct (score <=? 0) eqn:Hpos.
  { apply Z.leb_le in Hpos. split; [split; [apply Hoff | lia] | apply Hoff]. }
  apply Z.leb_gt in Hpos.
  destruct (hasSupabaseConfig h && hofLoading h && (length (hallOfFame h) =? 0)%nat)
    eqn:Hgate.
  { rewrite !andb_true_iff, length_zero_nil in Hgate.
    split; [split; [apply Hoff | tauto] | apply Hoff]. }
  assert (Hopen : ~ (hasSupabaseConfig h = true /\ hofLoading h = true
                    /\ hallOfFame h = [])).
  { intros [H1 [H2 H3]]. rewrite H1, H2, H3 in Hgate. discriminate Hgate. }
  destruct (qualifiesForHof (hallOfFame h) score); cbn [negb].
  2:{ split; [split; [apply Hoff | intros [_ [_ [_ [H _]]]]; discriminate H]
             | apply Hoff]. }
  destruct (firstn CONFIG.NAME_MAX_CHARS (trim (playerName h))) as [|c name] eqn:Hname.
  { split; [split; [apply Hoff | tauto] | apply Hoff]. }
  split.
  - split; [|destruct (hasSupabaseConfig h); discriminate].
    intros _. repeat split; auto. discriminate.
  - intros _. reflexivity.
Qed.

(** Once set, the saved flag stays set until a new game is started. *)
Lemma step_keeps_saved (h : Hof) (e : Event) :
  hasSavedScore h = true -> e <> EvStartGame -> hasSavedScore (step h e) = true.
Proof.
  intros Hsaved Hgame.
  destruct e as [showLoading|requestId res now|requestId|score level now
                |entry error|sanitized| | |]; cbn [step].
  - destruct showLoading; exact Hsaved.
  - unfold loadHallOfFameOnline_resume.
    destruct (negb (hofIsMountedRef h)); [exact Hsaved|].
    destruct (negb (hofRequestIdRef h =? requestId)%nat); [exact Hsaved|].
    destruct res; exact Hsaved.
  - unfold hofLoadingTimeout.
    destruct (negb (hofIsMountedRef h)); [exact Hsaved|].
    destruct (negb (hofRequestIdRef h =? requestId)%nat); [exact Hsaved|].
    destruct (length (hallOfFame h) =? 0)%nat; exact Hsaved.
  - unfold handleSaveScore_start. rewrite Hsaved. exact Hsaved.
  - unfold handleSaveScore_resume. destruct error; reflexivity.
  - exact Hsaved.
  - exfalso. apply Hgame. reflexivity.
  - unfold mountHof. destruct (negb (hasSupabaseConfig h)); exact Hsaved.
  - exact Hsaved.
Qed.

Lemma run_keeps_saved (events : list Event) (h : Hof) :
  hasSavedScore h = true -> sameGame events -> hasSavedScore (run events h) = true.
Proof.
  revert h. induction events as [|e events IH]; intros h Hsaved Hgame; [exact Hsaved|].
  inversion Hgame as [|e' events' He Hrest]; subst.
  simpl. apply IH; [apply step_keeps_saved; assumption | exact Hrest].
Qed.

(** ** Saves made one after the other *)

Lemma mergeHallOfFame_keeps_qualifying (entry : Entry.t) (prev : list Entry.t) :
  (length prev <= 10)%nat ->
  qualifiesForHof prev (Entry.score entry) = true ->
  let dropped := skipn 10 (sortEntries (entry :: prev)) in
  Permutation (entry :: prev) (mergeHallOfFame entry prev ++ dropped)
  /\ ~ In entry dropped
  /\ (length dropped <= 1)%nat
  /\ In entry (mergeHallOfFame entry prev).
Proof.
  intros Hlen Hq dropped. unfold mergeHallOfFame.
  set (sorted := sortEntries (entry :: prev)) in *.
  assert (Hperm : Permutation (entry :: prev) sorted) by apply sortEntries_perm.
  assert (Hsplit : firstn 10 sorted ++ dropped = sorted) by apply firstn_skipn.
  assert (Hdrop : (length dropped <= 1)%nat).
  { unfold dropped. rewrite length_skipn, <- (Permutation_length Hperm). simpl. lia. }
  assert (Hnot : ~ In entry dropped).
  { intros Hin. apply qualifiesForHof_spec in Hq.
    destruct Hq as [_ [Hshort|[m [[[e [He Hs]] _] Hlt]]]].
    - unfold dropped in Hin. rewrite skipn_all2 in Hin; [contradiction|].
      rewrite <- (Permutation_length Hperm). simpl. lia.
    - assert (Hes : In e sorted)
        by (apply (Permutation_in _ Hperm); right; exact He).
      rewrite <- Hsplit in Hes. apply in_app_or in Hes.
      destruct Hes as [Hfront|Hback].
      + assert (Hord : hofOrder e entry).
        { apply (StronglySorted_app_order _ hofOrder (firstn 10 sorted) dropped);
            [rewrite Hsplit; apply sortEntries_sorted | exact Hfront | exact Hin]. }
        unfold hofOrder in Hord. lia.
      + destruct dropped as [|d [|d' rest]]; simpl in *; [contradiction| |lia].
        destruct Hin as [Hd|[]], Hback as [Hd'|[]]. subst d. subst e. lia. }
  split; [rewrite Hsplit; exact Hperm|]. split; [exact Hnot|]. split; [exact Hdrop|].
  assert (Hin : In entry sorted) by (apply (Permutation_in _ Hperm); left; reflexivity).
  rewrite <- Hsplit in Hin. apply in_app_or in Hin. tauto.
Qed.

(** Attempts made one after the other. A save attempt that gets past its
    guards and runs to its end leaves the saved flag set, whether the
    remote insert succeeded, failed, or no remote is configured. The
    leaderboard is then the old one merged with exactly one new entry (on
    a board of at most 10 entries the entry is on it, once more than
    before, and at most one other entry fell off the end), at most one
    row went to the remote table, and every save attempt that starts
    later in that game, with any score and after any other events, is
    refused and changes nothing. *)
Lemma handleSaveScore_idempotent
    (score level now : Z) (error : option string) (h : Hof)
    (Haccepted : handleSaveScore_start score level now h <> SaveRefused)
    (Hboard : (length (hallOfFame h) <= 10)%nat) :
  let entry := entryOf score level now h in
  let saved := handleSaveScore score level now error h in
  hasSavedScore saved = true
  /\ hallOfFame saved = mergeHallOfFame entry (hallOfFame h)
  /\ In entry (hallOfFame saved)
  /\ (exists dropped,
         Permutation (entry :: hallOfFame h) (hallOfFame saved ++ dropped)
         /\ ~ In entry dropped /\ (length dropped <= 1)%nat)
  /\ inserts saved
     = (if hasSupabaseConfig h
        then inserts h ++ [mkInsertRow (Entry.name entry) score level]
        else inserts h)
  /\ (forall score' level' now' error',
         handleSaveScore_start score' level' now' saved = SaveRefused
         /\ handleSaveScore score' level' now' error' saved = saved
         /\ hallOfFame
              (handleSaveScore score' level' now' error' saved)
            = mergeHallOfFame entry (hallOfFame h))
  /\ (forall events score' level' now' error',
         sameGame events ->
         hasSavedScore (run events saved) = true
         /\ step (run events saved) (EvSaveClick score' level' now') = run events saved
         /\ handleSaveScore score' level' now' error' (run events saved)
            = run events saved).
Proof.
  intros entry saved.
  destruct (handleSaveScore_start_accepts score level now h) as [Hguards Hresult].
  pose proof (Hresult Haccepted) as Hstart.
  apply Hguards in Haccepted. destruct Haccepted as [_ [_ [_ [Hq _]]]].
  assert (Hflag : hasSavedScore saved = true).
  { unfold saved, handleSaveScore. rewrite Hstart.
    destruct (hasSupabaseConfig h); [|reflexivity].
    destruct error; [reflexivity|]. reflexivity. }
  assert (Hhof : hallOfFame saved = mergeHallOfFame entry (hallOfFame h)).
  { unfold saved, handleSaveScore. rewrite Hstart.
    destruct (hasSupabaseConfig h); [|reflexivity].
    destruct error; [reflexivity|].
    unfold handleSaveScore_resume. cbn [hofIsMountedRef setHallOfFame logInsert setHofError].
    destruct (hofIsMountedRef h); reflexivity. }
  assert (Hins : inserts saved
                 = (if hasSupabaseConfig h
                    then inserts h ++ [mkInsertRow (Entry.name entry) score level]
                    else inserts h)).
  { unfold saved, handleSaveScore. rewrite Hstart.
    destruct (hasSupabaseConfig h); [|reflexivity].
    destruct error; [reflexivity|].
    unfold handleSaveScore_resume. cbn [hofIsMountedRef setHallOfFame logInsert setHofError].
    destruct (hofIsMountedRef h); reflexivity. }
  destruct (mergeHallOfFame_keeps_qualifying entry (hallOfFame h) Hboard Hq)
    as [Hperm [Hnot [Hdrop Hin]]].
  split; [exact Hflag|]. split; [exact Hhof|].
  split; [rewrite Hhof; exact Hin|].
  split; [eexists; rewrite Hhof; split; [exact Hperm | split; [exact Hnot | exact Hdrop]]|].
  split; [exact Hins|].
  split.
  - intros score' level' now' error'.
    assert (Hrefused : handleSaveScore_start score' level' now' saved = SaveRefused).
    { unfold handleSaveScore_start. rewrite Hflag. reflexivity. }
    split; [exact Hrefused|].
    unfold handleSaveScore. rewrite Hrefused. split; [reflexivity | exact Hhof].
  - intros events score' level' now' error' Hgame.
    pose proof (run_keeps_saved events saved Hflag Hgame) as Hlater.
    assert (Hrefused : handleSaveScore_start score' level' now' (run events saved)
                       = SaveRefused).
    { unfold handleSaveScore_start. rewrite Hlater. reflexivity. }
    split; [exact Hlater|].
    split; [cbn [step] | unfold handleSaveScore]; rewrite Hrefused; reflexivity.
Qed.

Lemma handleSaveScore_idempotent_witness :
  hasSavedScore (handleSaveScore 5 1 1000 None localBoard) = true
  /\ length (hallOfFame (handleSaveScore 7 2 2000 None
                           (handleSaveScore 5 1 1000 None localBoard))) = 1%nat.
Proof.
  assert (Hacc : handleSaveScore_start 5 1 1000 localBoard <> SaveRefused)
    by (vm_compute; discriminate).
  assert (Hlen : (length (hallOfFame localBoard) <= 10)%nat)
    by (vm_compute; lia).
  destruct (handleSaveScore_idempotent 5 1 1000 None localBoard Hacc Hlen)
    as [Hflag [_ [_ [_ [_ [Hlater _]]]]]].
  split; [exact Hflag|].
  destruct (Hlater 7 2 2000 None) as [_ [_ Hhof]].
  rewrite Hhof. reflexivity.
Defined.

(** ** C10: no save while the online list is loading over an empty cache *)

(** C10: with the remote configured, the online list still loading and
    the local list empty, a save attempt is refused whatever the score
    and the name: the state is unchanged, so no local entry is added and
    no row is sent. For a game with nothing saved yet, a qualifying score
    and a non-empty trimmed name, the attempt is accepted exactly when
    that gate is open: the remote is not configured, or loading has
    finished, or the local list is not empty. *)
Theorem handleSaveScore_refused_while_loading
    (score level now : Z) (error : option string) (h : Hof)
    (Hconfigured : hasSupabaseConfig h = true)
    (Hloading : hofLoading h = true)
    (Hempty : hallOfFame h = []) :
  handleSaveScore_start score level now h = SaveRefused
  /\ handleSaveScore score level now error h = h
  /\ step h (EvSaveClick score level now) = h
  /\ hallOfFame (handleSaveScore score level now error h) = []
  /\ inserts (handleSaveScore score level now error h) = inserts h
  /\ (forall h',
         hasSavedScore h' = false ->
         qualifiesForHof (hallOfFame h') score = true ->
         firstn CONFIG.NAME_MAX_CHARS (trim (playerName h')) <> [] ->
         (handleSaveScore_start score level now h' <> SaveRefused
          <-> (hasSupabaseConfig h' = false \/ hofLoading h' = false
               \/ hallOfFame h' <> []))).
Proof.
  assert (Hstart : handleSaveScore_start score level now h = SaveRefused).
  { unfold handleSaveScore_start.
    rewrite Hconfigured, Hloading, Hempty.
    destruct (hasSavedScore h || (score <=? 0)); reflexivity. }
  split; [exact Hstart|].
  assert (Hsame : handleSaveScore score level now error h = h)
    by (unfold handleSaveScore; rewrite Hstart; reflexivity).
  split; [exact Hsame|].
  split; [cbn [step]; rewrite Hstart; reflexivity|].
  split; [rewrite Hsame; exact Hempty|].
  split; [rewrite Hsame; reflexivity|].
  intros h' Hfresh Hq Hname.
  destruct (handleSaveScore_start_accepts score level now h') as [Hguards _].
  rewrite Hguards. split.
  - intros [_ [_ [Hopen _]]].
    destruct (hasSupabaseConfig h'); [|auto].
    destruct (hofLoading h'); [|auto].
    right. right. intros Hnil. apply Hopen. auto.
  - intros Hopen.
    apply qualifiesForHof_spec in Hq as Hpos. destruct Hpos as [Hpos _].
    repeat split; auto.
    intros [H1 [H2 H3]].
    destruct Hopen as [H|[H|H]]; [congruence | congruence | exact (H H3)].
Qed.

Lemma handleSaveScore_refused_while_loading_witness :
  handleSaveScore 5 1 1000 None loadingBoard = loadingBoard
  /\ qualifiesForHof (hallOfFame loadingBoard) 5 = true
  /\ trim (playerName loadingBoard) = nameABC.
Proof.
  destruct (handleSaveScore_refused_while_loading 5 1 1000 None loadingBoard
              eq_refl eq_refl eq_refl) as [_ [Hsame _]].
  split; [exact Hsame|]. split; reflexivity.
Defined.

(** ** C9: stale answers to leaderboard fetches *)

Lemma loadHallOfFameOnline_start_id (showLoading : bool) (h : Hof) :
  fst (loadHallOfFameOnline_start showLoading h) = S (hofRequestIdRef h)
  /\ hofRequestIdRef (snd (loadHallOfFameOnline_start showLoading h))
     = S (hofRequestIdRef h).
Proof.
  unfold loadHallOfFameOnline_start. destruct showLoading; split; reflexivity.
Qed.

(** No event lowers the request counter. *)
Lemma step_requestId_mono (h : Hof) (e : Event) :
  (hofRequestIdRef h <= hofRequestIdRef (step h e))%nat.
Proof.
  destruct e as [showLoading|requestId res now|requestId|score level now
                |entry error|sanitized| | |]; cbn [step].
  - rewrite (proj2 (loadHallOfFameOnline_start_id showLoading h)). lia.
  - unfold loadHallOfFameOnline_resume.
    destruct (negb (hofIsMountedRef h)); [lia|].
    destruct (negb (hofRequestIdRef h =? requestId)%nat); [lia|].
    destruct res; cbn; lia.
  - unfold hofLoadingTimeout.
    destruct (negb (hofIsMountedRef h)); [lia|].
    destruct (negb (hofRequestIdRef h =? requestId)%nat); [lia|].
    destruct (length (hallOfFame h) =? 0)%nat; cbn; lia.
  - destruct (handleSaveScore_start_accepts score level now h) as [_ Hres].
    destruct (handleSaveScore_start score level now h) as [|h'|entry h'] eqn:Hs;
      [lia| |].
    + specialize (Hres ltac:(discriminate)).
      destruct (hasSupabaseConfig h); [discriminate|].
      injection Hres as Hh'. subst h'. cbn. lia.
    + specialize (Hres ltac:(discriminate)).
      destruct (hasSupabaseConfig h); [|discriminate].
      injection Hres as _ Hh'. subst h'. cbn. lia.
  - unfold handleSaveScore_resume. destruct error; [cbn; lia|].
    cbn [hofIsMountedRef setHallOfFame].
    destruct (hofIsMountedRef h); cbn; lia.
  - cbn. lia.
  - cbn. lia.
  - unfold mountHof. destruct (negb (hasSupabaseConfig h)); cbn; lia.
  - cbn. lia.
Qed.

Lemma run_requestId_mono (events : list Event) (h : Hof) :
  (hofRequestIdRef h <= hofRequestIdRef (run events h))%nat.
Proof.
  revert h. induction events as [|e events IH]; intros h; simpl; [lia|].
  etransitivity; [apply (step_requestId_mono h e) | apply IH].
Qed.

Lemma step_keeps_generation (h : Hof) (e : Event) :
  keepsGeneration e ->
  hofRequestIdRef (step h e) = hofRequestIdRef h
  /\ hofIsMountedRef (step h e) = hofIsMountedRef h.
Proof.
  destruct e as [showLoading|requestId res now|requestId|score level now
                |entry [details|]|sanitized| | |]; cbn [step keepsGeneration];
    intros Hkeep; try contradiction.
  - unfold loadHallOfFameOnline_resume.
    destruct (negb (hofIsMountedRef h)); [auto|].
    destruct (negb (hofRequestIdRef h =? requestId)%nat); [auto|].
    destruct res; auto.
  - unfold hofLoadingTimeout.
    destruct (negb (hofIsMountedRef h)); [auto|].
    destruct (negb (hofRequestIdRef h =? requestId)%nat); [auto|].
    destruct (length (hallOfFame h) =? 0)%nat; auto.
  - destruct (handleSaveScore_start_accepts score level now h) as [_ Hres].
    destruct (handleSaveScore_start score level now h) as [|h'|entry h'] eqn:Hs;
      [auto| |].
    + specialize (Hres ltac:(discriminate)).
      destruct (hasSupabaseConfig h); [discriminate|].
      injection Hres as Hh'. subst h'. auto.
    + specialize (Hres ltac:(discriminate)).
      destruct (hasSupabaseConfig h); [|discriminate].
      injection Hres as _ Hh'. subst h'. auto.
  - auto.
  - auto.
  - auto.
Qed.

Lemma run_keeps_generation (events : list Event) (h : Hof) :
  Forall keepsGeneration events ->
  hofRequestIdRef (run events h) = hofRequestIdRef h
  /\ hofIsMountedRef (run events h) = hofIsMountedRef h.
Proof.
  revert h. induction events as [|e events IH]; intros h Hkeep; [auto|].
  inversion Hkeep as [|e' events' He Hrest]; subst. simpl.
  destruct (IH (step h e) Hrest) as [Hid Hm].
  destruct (step_keeps_generation h e He) as [Hid' Hm'].
  split; congruence.
Qed.

(** C9: every fetch takes the next value of the request counter as its
    generation, and the counter never decreases. An answer changes the
    state only when its generation is the current value of the counter
    (and the component is mounted). So when fetch A is issued, then,
    after any events, fetch B, then any further events, the answer to A,
    whenever it arrives, leaves the state as it is, and so does A's
    loading timer; while the answer to B, as long as no newer fetch was
    issued and the component stayed mounted, replaces the leaderboard. *)
Theorem loadHallOfFameOnline_stale_discarded
    (h0 : Hof) (showA showB : bool) (between later : list Event)
    (res : FetchResult) (now : Z) :
  let '(idA, h1) := loadHallOfFameOnline_start showA h0 in
  let h2 := run between h1 in
  let '(idB, h3) := loadHallOfFameOnline_start showB h2 in
  let h4 := run later h3 in
  idA = S (hofRequestIdRef h0)
  /\ idB = S (hofRequestIdRef h2)
  /\ (idA < idB)%nat
  /\ (idB <= hofRequestIdRef h4)%nat
  /\ loadHallOfFameOnline_resume idA res now h4 = h4
  /\ hofLoadingTimeout idA h4 = h4
  /\ (forall h e, (hofRequestIdRef h <= hofRequestIdRef (step h e))%nat)
  /\ (forall h requestId res' now',
         loadHallOfFameOnline_resume requestId res' now' h <> h ->
         requestId = hofRequestIdRef h /\ hofIsMountedRef h = true)
  /\ (forall rows now',
         Forall keepsGeneration later ->
         hofIsMountedRef h3 = true ->
         hallOfFame (loadHallOfFameOnline_resume idB (FetchData rows) now' h4)
         = entriesOfRows now' rows).
Proof.
  destruct (loadHallOfFameOnline_start showA h0) as [idA h1] eqn:HA.
  cbv zeta.
  destruct (loadHallOfFameOnline_start showB (run between h1)) as [idB h3] eqn:HB.
  pose proof (loadHallOfFameOnline_start_id showA h0) as [HidA Hh1].
  pose proof (loadHallOfFameOnline_start_id showB (run between h1)) as [HidB Hh3].
  rewrite HA in HidA, Hh1. rewrite HB in HidB, Hh3. cbn [fst snd] in *.
  pose proof (run_requestId_mono between h1) as Hmono1.
  pose proof (run_requestId_mono later h3) as Hmono2.
  assert (Hlt : (idA < idB)%nat) by lia.
  assert (Hstale : (hofRequestIdRef (run later h3) =? idA)%nat = false)
    by (apply Nat.eqb_neq; lia).
  split; [exact HidA|]. split; [exact HidB|]. split; [exact Hlt|].
  split; [lia|].
  split.
  { unfold loadHallOfFameOnline_resume. rewrite Hstale.
    destruct (negb (hofIsMountedRef (run later h3))); reflexivity. }
  split.
  { unfold hofLoadingTimeout. rewrite Hstale.
    destruct (negb (hofIsMountedRef (run later h3))); reflexivity. }
  split; [exact step_requestId_mono|].
  split.
  { intros h requestId res' now'. unfold loadHallOfFameOnline_resume.
    destruct (hofIsMountedRef h); cbn [negb]; [|intros H; exfalso; apply H; reflexivity].
    destruct (hofRequestIdRef h =? requestId)%nat eqn:Hid; cbn [negb];
      [|intros H; exfalso; apply H; reflexivity].
    apply Nat.eqb_eq in Hid. auto. }
  intros rows now' Hquiet Hmounted.
  destruct (run_keeps_generation later h3 Hquiet) as [Hid Hm].
  unfold loadHallOfFameOnline_resume.
  rewrite Hm, Hmounted, Hid, Hh3, HidB, Nat.eqb_refl.
  reflexivity.
Qed.

(** ** C7: a second click while the insert is awaited *)

(** The saved flag is read when an attempt starts and written when its
    insert has been answered. With a remote configured, a second click
    made before the first insert is answered finds the flag still unset
    and passes the same guards: a second row is sent. *)
Lemma handleSaveScore_guard_read_at_start
    (score level now1 now2 : Z) (h : Hof)
    (Hconfigured : hasSupabaseConfig h = true)
    (Haccepted : handleSaveScore_start score level now1 h <> SaveRefused) :
  let row := mkInsertRow (Entry.name (entryOf score level now1 h)) score level in
  let h1 := step h (EvSaveClick score level now1) in
  let h2 := step h1 (EvSaveClick score level now2) in
  hasSavedScore h1 = false
  /\ handleSaveScore_start score level now2 h1 <> SaveRefused
  /\ inserts h2 = inserts h ++ [row; row].
Proof.
  intros row h1 h2.
  destruct (handleSaveScore_start_accepts score level now1 h) as [Hguards Hresult].
  pose proof (Hresult Haccepted) as Hstart. rewrite Hconfigured in Hstart.
  apply Hguards in Haccepted.
  destruct Haccepted as [Hfresh [Hpos [Hopen [Hq Hname]]]].
  assert (Hh1 : h1 = logInsert row (setHofError None h)).
  { unfold h1. cbn [step]. rewrite Hstart. reflexivity. }
  assert (Hagain : handleSaveScore_start score level now2 h1 <> SaveRefused).
  { apply (proj1 (handleSaveScore_start_accepts score level now2 h1)).
    rewrite Hh1. cbn [hasSavedScore hasSupabaseConfig hofLoading hallOfFame
                      playerName logInsert setHofError].
    repeat split; assumption. }
  split; [rewrite Hh1; exact Hfresh|]. split; [exact Hagain|].
  destruct (handleSaveScore_start_accepts score level now2 h1) as [_ Hresult2].
  pose proof (Hresult2 Hagain) as Hstart2.
  unfold h2. cbn [step]. rewrite Hstart2.
  rewrite Hh1 at 1. cbn [hasSupabaseConfig logInsert setHofError]. rewrite Hconfigured.
  rewrite Hh1. cbn [inserts logInsert setHofError entryOf Entry.name playerName].
  rewrite <- app_assoc. reflexivity.
Qed.

Lemma handleSaveScore_guard_read_at_start_witness :
  length (inserts (step (step onlineBoard (EvSaveClick 5 1 1000))
                        (EvSaveClick 5 1 1001))) = 2%nat.
Proof.
  assert (Hacc : handleSaveScore_start 5 1 1000 onlineBoard <> SaveRefused)
    by (vm_compute; discriminate).
  destruct (handleSaveScore_guard_read_at_start 5 1 1000 1001 onlineBoard
              eq_refl Hacc) as [_ [_ Hrows]].
  rewrite Hrows. reflexivity.
Defined.

(** C7 is not what the code does when the save button is clicked twice
    before the first insert is answered. The button is disabled by the
    saved flag alone, and the flag is set only after the [await]: on a
    board with the remote configured and the list loaded, the score 5
    under the name ABC passes the guards at both clicks, each click sends
    a row, and each answer merges the entry its click has built. One
    score, submitted twice in one game, is twice in the remote table and
    twice on the leaderboard. *)
Theorem handleSaveScore_double_click_saves_twice :
  let first := Entry.mk None nameABC 5 1 1000 in
  let second := Entry.mk None nameABC 5 1 1001 in
  let clicked := step onlineBoard (EvSaveClick 5 1 1000) in
  let clickedAgain := step clicked (EvSaveClick 5 1 1001) in
  let answered :=
    run [EvSaveAnswer first None; EvSaveAnswer second None] clickedAgain in
  hallOfFame onlineBoard = []
  /\ handleSaveScore_start 5 1 1000 onlineBoard = SaveAwait first clicked
  /\ hasSavedScore clicked = false
  /\ handleSaveScore_start 5 1 1001 clicked = SaveAwait second clickedAgain
  /\ inserts clickedAgain = [mkInsertRow nameABC 5 1; mkInsertRow nameABC 5 1]
  /\ hallOfFame answered = [second; first]
  /\ hasSavedScore answered = true
  /\ sameGame [EvSaveClick 5 1 1000; EvSaveClick 5 1 1001;
               EvSaveAnswer first None; EvSaveAnswer second None].
Proof.
  intros first second clicked clickedAgain answered.
  split; [reflexivity|].
  split; [vm_compute; reflexivity|].
  split; [vm_compute; reflexivity|].
  split; [vm_compute; reflexivity|].
  split; [vm_compute; reflexivity|].
  split; [vm_compute; reflexivity|].
  split; [vm_compute; reflexivity|].
  repeat constructor; discriminate.
Qed.

(* ====================================================================== *)
(** * Further properties of the simulation step *)
(* ====================================================================== *)

(** The branches of a tick, each with the tests that led to it. *)
Ltac tick_cases g :=
  let dir := fresh "dir" in
  let queue := fresh "queue" in
  let head0 := fresh "head0" in
  let rest := fresh "rest" in
  unfold moveSnake;
  destruct (processInput (directionRef g) (inputQueueRef g)) as [dir queue];
  destruct (snakeRef g) as [|head0 rest] eqn:Hsnake;
  [ | destruct (outsideGrid (advance dir head0)) eqn:Hwall;
      [ | destruct (willCollide (head0 :: rest) (advance dir head0)) eqn:Hself;
          [ | destruct (hitEnemy (enemiesRef g) (advance dir head0)) eqn:Henemy;
              [ | destruct ((Position.x (advance dir head0) =? Position.x (foodRef g))
                            && (Position.y (advance dir head0) =? Position.y (foodRef g)))
                    eqn:Hfood ] ] ] ];
  cbn [fst snd snakeRef directionRef inputQueueRef foodRef enemiesRef speedRef
       score highScore isNewRecord foodEatenThisLevel gameState levelClearTimers
       effects endGame];
  rewrite ?Hsnake.

Lemma advance_adjacent (d : Direction) (head : Position.t) :
  adjacent (advance d head) head.
Proof.
  destruct head as [hx hy], d; unfold adjacent; simpl; lia.
Qed.

Lemma connected_removelast (snake : list Position.t) :
  connected snake -> connected (removelast snake).
Proof.
  induction snake as [|a [|b rest] IH]; intros Hc; [exact I | exact I |].
  destruct Hc as [Hab Hrest].
  change (removelast (a :: b :: rest)) with (a :: removelast (b :: rest)).
  destruct rest as [|c rest']; [exact I|].
  change (removelast (b :: c :: rest')) with (b :: removelast (c :: rest')) in *.
  split; [exact Hab | exact (IH Hrest)].
Qed.

(** After every tick each snake cell is still a grid neighbour of the
    next one. *)
Theorem moveSnake_keeps_connected rnd (g : Game)
    (Hconnected : connected (snakeRef g)) :
  connected (snakeRef (snd (moveSnake rnd g))).
Proof.
  tick_cases g; try exact I; try exact Hconnected.
  - split; [apply advance_adjacent | exact Hconnected].
  - change (removelast (advance dir head0 :: head0 :: rest))
      with (advance dir head0 :: removelast (head0 :: rest)).
    apply connected_removelast in Hconnected.
    destruct rest as [|b rest']; [exact I|].
    change (removelast (head0 :: b :: rest')) with (head0 :: removelast (b :: rest')) in *.
    split; [apply advance_adjacent | exact Hconnected].
Qed.

Lemma moveSnake_keeps_connected_witness :
  connected (snakeRef (snd (moveSnake noDraws (freshGame [UP])))).
Proof.
  apply moveSnake_keeps_connected.
  vm_compute. repeat split.
Defined.


(** A snake that lies on the grid lies on the grid after every tick. *)
Theorem moveSnake_stays_in_grid rnd (g : Game)
    (Hinside : Forall inGrid (snakeRef g)) :
  Forall inGrid (snakeRef (snd (moveSnake rnd g))).
Proof.
  tick_cases g; try exact Hinside.
  - constructor; [apply outsideGrid_spec; exact Hwall | exact Hinside].
  - apply Forall_forall. intros p Hp.
    change (removelast (advance dir head0 :: head0 :: rest))
      with (advance dir head0 :: removelast (head0 :: rest)) in Hp.
    destruct Hp as [<-|Hp]; [apply outsideGrid_spec; exact Hwall|].
    rewrite Forall_forall in Hinside. apply Hinside.
    rewrite (app_removelast_last head0 (l := head0 :: rest)) by discriminate.
    apply in_or_app. left. exact Hp.
Qed.

Lemma moveSnake_stays_in_grid_witness :
  Forall inGrid (snakeRef (snd (moveSnake noDraws (freshGame [UP])))).
Proof.
  apply moveSnake_stays_in_grid.
  vm_compute. repeat constructor; discriminate.
Defined.

(** ** Room for the food *)

Lemma gridCells_inGrid (c : Position.t) : In c gridCells -> inGrid c.
Proof.
  unfold gridCells. rewrite in_flat_map. intros [y [Hy Hc]].
  apply in_map_iff in Hc. destruct Hc as [x [<- Hx]].
  apply in_seq in Hy. apply in_seq in Hx.
  unfold inGrid, CONFIG.GRID_SIZE. simpl. lia.
Qed.

Lemma gridCells_NoDup : NoDup gridCells.
Proof.
  assert (H : nodup Position_eq_dec gridCells = gridCells) by (vm_compute; reflexivity).
  rewrite <- H. apply NoDup_nodup.
Qed.

Lemma gridCells_length : length gridCells = 225%nat.
Proof. reflexivity. Qed.

Lemma isBlocked_occupied snake enemies (c : Position.t) :
  isBlocked snake enemies c = true -> In c (snake ++ map enemyCell enemies).
Proof.
  intros Hb. apply in_or_app.
  destruct (in_dec Position_eq_dec c snake) as [Hin|Hout]; [left; exact Hin|].
  right. apply in_map_iff.
  assert (Hat : enemyAt enemies c).
  { destruct (hitEnemy enemies c) eqn:Hhit; [apply hitEnemy_spec; exact Hhit|].
    exfalso. apply not_true_iff_false in Hhit. rewrite hitEnemy_spec in Hhit.
    assert (Hfree : freeCell snake enemies c) by (split; assumption).
    apply isBlocked_spec in Hfree. congruence. }
  destruct Hat as [e [He [Hx Hy]]]. exists e. split; [|exact He].
  destruct c as [cx cy]. unfold enemyCell. simpl in *. congruence.
Qed.

(** Fewer occupants than cells leaves a cell free. *)
Lemma room_by_count snake enemies :
  (length snake + length enemies < 225)%nat ->
  exists c, inGrid c /\ freeCell snake enemies c.
Proof.
  intros Hcount.
  destruct (existsb (fun c => negb (isBlocked snake enemies c)) gridCells) eqn:Hex.
  - apply existsb_exists in Hex. destruct Hex as [c [Hc Hfree]].
    exists c. split; [apply gridCells_inGrid; exact Hc|].
    apply isBlocked_spec. apply negb_true_iff. exact Hfree.
  - exfalso.
    assert (Hincl : incl gridCells (snake ++ map enemyCell enemies)).
    { intros c Hc. apply isBlocked_occupied.
      destruct (isBlocked snake enemies c) eqn:Hb; [reflexivity|].
      apply not_true_iff_false in Hex. exfalso. apply Hex.
      apply existsb_exists. exists c. rewrite Hb. auto. }
    pose proof (NoDup_incl_length gridCells_NoDup Hincl) as Hlen.
    rewrite gridCells_length, length_app, length_map in Hlen. lia.
Qed.

(** With a free cell on the grid the respawned food is on a free cell. *)
Lemma spawnFood_free rnd snake enemies :
  (exists c, inGrid c /\ freeCell snake enemies c) ->
  freeCell snake enemies (spawnFood rnd snake enemies).
Proof.
  intros [c [Hc Hfree]]. apply isBlocked_spec in Hfree.
  unfold spawnFood.
  destruct (isBlocked snake enemies (sampleFood rnd snake enemies 0 299)) eqn:Hb;
    [|apply isBlocked_spec; exact Hb].
  destruct (scanGrid snake enemies 0 (Z.to_nat CONFIG.GRID_SIZE)) as [p|] eqn:Hscan.
  - destruct (scanGrid_Some _ _ _ _ _ Hscan) as [Hp _].
    apply isBlocked_spec. exact Hp.
  - exfalso. destruct c as [cx cy]. destruct Hc as [Hcx Hcy].
    cbn [Position.x Position.y] in *.
    pose proof (scanGrid_None _ _ _ _ Hscan cy cx) as Hbl.
    unfold CONFIG.GRID_SIZE in *.
    change (Z.of_nat (Z.to_nat 15)) with 15 in Hbl. rewrite Z.add_0_l in Hbl.
    rewrite Hbl in Hfree by lia. discriminate.
Qed.

(** Draws that are grid coordinates put the food on the grid. *)
Lemma spawnFood_inGrid rnd snake enemies :
  (forall k, 0 <= rnd k < CONFIG.GRID_SIZE) ->
  inGrid (spawnFood rnd snake enemies).
Proof.
  intros Hrange.
  assert (Hdraw : forall k, inGrid (draw rnd k)).
  { intros k. unfold draw, inGrid. simpl. split; apply Hrange. }
  unfold spawnFood.
  destruct (sampleFood_spec rnd snake enemies 299 0) as [k [_ [Heq _]]].
  rewrite Heq.
  destruct (isBlocked snake enemies (draw rnd (0 + k))); [|apply Hdraw].
  destruct (scanGrid snake enemies 0 (Z.to_nat CONFIG.GRID_SIZE)) as [p|] eqn:Hscan;
    [|apply Hdraw].
  destruct (scanGrid_Some _ _ _ _ _ Hscan) as [_ [Hy [Hx _]]].
  unfold inGrid, CONFIG.GRID_SIZE in *.
  change (Z.of_nat (Z.to_nat 15)) with 15 in Hy. lia.
Qed.

(** Whenever the snake and the obstacles together number fewer than the
    225 cells of the grid, the respawned food lies on no snake cell and
    on no obstacle, whatever the random draws; and with draws that are
    grid coordinates, as [Math.floor(Math.random() * 15)] always is, it
    lies on the grid. *)
Theorem spawnFood_free_by_count rnd snake enemies
    (Hcount : (length snake + length enemies < 225)%nat) :
  freeCell snake enemies (spawnFood rnd snake enemies)
  /\ ((forall k, 0 <= rnd k < CONFIG.GRID_SIZE) ->
      inGrid (spawnFood rnd snake enemies)).
Proof.
  split; [|apply spawnFood_inGrid].
  apply spawnFood_free. apply room_by_count. exact Hcount.
Qed.

Lemma spawnFood_free_by_count_witness :
  freeCell startSnake [] (spawnFood noDraws startSnake []).
Proof.
  apply spawnFood_free_by_count. vm_compute. lia.
Defined.

(** ** Nothing overlaps *)

Lemma NoDup_removelast (A : Type) (l : list A) : NoDup l -> NoDup (removelast l).
Proof.
  intros Hnd. destruct l as [|a l']; [exact Hnd|].
  rewrite (app_removelast_last a (l := a :: l')) in Hnd by discriminate.
  apply NoDup_remove_1 in Hnd. rewrite app_nil_r in Hnd. exact Hnd.
Qed.

Lemma In_removelast (A : Type) (l : list A) (x : A) :
  In x (removelast l) -> In x l.
Proof.
  intros Hin. destruct l as [|a l']; [exact Hin|].
  rewrite (app_removelast_last a (l := a :: l')) by discriminate.
  apply in_or_app. left. exact Hin.
Qed.

(** A board on which nothing overlaps stays so through every tick, as
    long as snake and obstacles leave a cell of the grid open: the snake
    never comes to cross itself, the food is never on the snake or on an
    obstacle, and no snake cell is on an obstacle. *)
Theorem moveSnake_keeps_well_placed rnd (g : Game)
    (Hplaced : wellPlaced g)
    (Hcount : (length (snakeRef g) + length (enemiesRef g) + 1 < 225)%nat) :
  wellPlaced (snd (moveSnake rnd g)).
Proof.
  destruct Hplaced as [Hnd [[Hoff Hfoodfree] Hclear]].
  unfold wellPlaced.
  tick_cases g; rewrite ?Hsnake in *.
  - repeat split; assumption.
  - repeat split; assumption.
  - repeat split; assumption.
  - repeat split; assumption.
  - apply same_cell_eq in Hfood.
    assert (Hhead : ~ In (advance dir head0) (head0 :: rest))
      by (rewrite Hfood; exact Hoff).
    split; [constructor; assumption|].
    split.
    + apply spawnFood_free. apply room_by_count. simpl in *. lia.
    + intros seg [<-|Hseg]; [|apply Hclear; exact Hseg].
      rewrite <- hitEnemy_spec, Henemy. discriminate.
  - change (removelast (advance dir head0 :: head0 :: rest))
      with (advance dir head0 :: removelast (head0 :: rest)).
    assert (Hnot : ~ In (advance dir head0) (removelast (head0 :: rest)))
      by (rewrite <- willCollide_spec, Hself; discriminate).
    split; [constructor; [exact Hnot | apply NoDup_removelast; exact Hnd]|].
    split; [split; [|exact Hfoodfree]|].
    + intros [Heq|Hin]; [|apply Hoff; apply In_removelast; exact Hin].
      apply not_true_iff_false in Hfood. apply Hfood.
      apply same_cell_eq. exact Heq.
    + intros seg [<-|Hseg]; [|apply Hclear; apply In_removelast; exact Hseg].
      rewrite <- hitEnemy_spec, Henemy. discriminate.
Qed.

Lemma moveSnake_keeps_well_placed_witness :
  wellPlaced (snd (moveSnake noDraws (freshGame []))).
Proof.
  apply moveSnake_keeps_well_placed; [|vm_compute; lia].
  split; [|split].
  - repeat constructor; simpl; intuition discriminate.
  - split; [simpl; intuition discriminate | intros [e [[] _]]].
  - intros seg _ [e [[] _]].
Defined.

(** ** Score and input queue over a whole game *)

Lemma moveSnake_score rnd (g : Game) :
  score g <= score (snd (moveSnake rnd g))
  /\ highScore g <= highScore (snd (moveSnake rnd g))
  /\ (score g <= highScore g ->
      score (snd (moveSnake rnd g)) <= highScore (snd (moveSnake rnd g))).
Proof.
  tick_cases g; try (repeat split; lia).
  unfold CONFIG.FOOD_SCORE.
  destruct (score g + 1 >? highScore g) eqn:Hrec;
    [apply Z.gtb_lt in Hrec | rewrite Z.gtb_ltb in Hrec; apply Z.ltb_ge in Hrec];
    repeat split; lia.
Qed.

Lemma playStep_score (g : Game) (e : PlayEvent) :
  score g <= score (playStep g e)
  /\ highScore g <= highScore (playStep g e)
  /\ (score g <= highScore g -> score (playStep g e) <= highScore (playStep g e)).
Proof.
  destruct e as [key|rnd|]; cbn [playStep].
  - unfold handleKeyDown.
    destruct (gameState g); try (repeat split; lia).
    destruct (keyDirection key);
      [destruct (length (inputQueueRef g) <? 2)%nat
      |destruct (existsb (String.eqb key) [" "%string; "Escape"%string])];
      cbn [score highScore]; repeat split; lia.
  - destruct (gameState g); try (repeat split; lia). apply moveSnake_score.
  - unfold levelClearTimeout, CONFIG.LEVEL_CLEAR_SCORE. cbn [score highScore].
    destruct (score g + 5 >? highScore g) eqn:Hrec;
      [apply Z.gtb_lt in Hrec | rewrite Z.gtb_ltb in Hrec; apply Z.ltb_ge in Hrec];
      repeat split; lia.
Qed.

(** Through any sequence of key presses, ticks and level-clear timers the
    score never decreases, the high score never decreases, and a high
    score that is at least the score stays so. *)
Theorem play_score_monotone (events : list PlayEvent) (g : Game) :
  score g <= score (play events g)
  /\ highScore g <= highScore (play events g)
  /\ (score g <= highScore g -> score (play events g) <= highScore (play events g)).
Proof.
  revert g. induction events as [|e events IH]; intros g;
    [simpl; repeat split; intros; lia|].
  simpl. destruct (IH (playStep g e)) as [Hs [Hh Hinv]].
  destruct (playStep_score g e) as [Hs' [Hh' Hinv']].
  split; [lia|]. split; [lia|]. intros Hle. apply Hinv, Hinv', Hle.
Qed.

Lemma moveSnake_queue rnd (g : Game) :
  inputQueueRef (snd (moveSnake rnd g)) = tl (inputQueueRef g).
Proof.
  rewrite (proj2 (moveSnake_heading rnd g)). unfold processInput.
  destruct (inputQueueRef g); reflexivity.
Qed.

(** The input queue never holds more than two directions: a key press
    adds at most one, and none to a queue of two or outside play; a tick
    takes exactly the first one off, also a tick that ends the game. *)
Theorem play_queue_bounded (events : list PlayEvent) (g : Game) :
  (forall key g',
      (length (inputQueueRef g') <= 2)%nat ->
      (length (inputQueueRef (handleKeyDown key g')) <= 2)%nat)
  /\ (forall key g', gameState g' <> playing -> handleKeyDown key g' = g')
  /\ (forall rnd g', inputQueueRef (snd (moveSnake rnd g')) = tl (inputQueueRef g'))
  /\ ((length (inputQueueRef g) <= 2)%nat ->
      (length (inputQueueRef (play events g)) <= 2)%nat).
Proof.
  assert (Hkey : forall key g',
             (length (inputQueueRef g') <= 2)%nat ->
             (length (inputQueueRef (handleKeyDown key g')) <= 2)%nat).
  { intros key g' Hlen. unfold handleKeyDown.
    destruct (gameState g'); try exact Hlen.
    destruct (keyDirection key).
    - destruct (length (inputQueueRef g') <? 2)%nat eqn:Hroom; [|exact Hlen].
      apply Nat.ltb_lt in Hroom. cbn [inputQueueRef].
      rewrite length_app. simpl. lia.
    - destruct (existsb (String.eqb key) [" "%string; "Escape"%string]); exact Hlen. }
  split; [exact Hkey|]. split.
  { intros key g' Hphase. unfold handleKeyDown.
    destruct (gameState g'); try reflexivity. exfalso. apply Hphase. reflexivity. }
  split; [exact moveSnake_queue|].
  revert g. induction events as [|e events IH]; intros g Hlen; [exact Hlen|].
  simpl. apply IH.
  destruct e as [key|rnd|]; cbn [playStep].
  - apply Hkey. exact Hlen.
  - destruct (gameState g); try exact Hlen.
    rewrite moveSnake_queue. destruct (inputQueueRef g); simpl in *; lia.
  - exact Hlen.
Qed.

(* ====================================================================== *)
(** * Properties of level start *)
(* ====================================================================== *)

(** ** Where the obstacles are placed *)

Lemma hasKey_spec (blocked : list (Z * Z)) (key : Z * Z) :
  hasKey blocked key = true <-> In key blocked.
Proof.
  unfold hasKey. rewrite existsb_exists. split.
  - intros [k [Hin Heq]]. apply andb_true_iff in Heq. rewrite !Z.eqb_eq in Heq.
    destruct k, key; simpl in *. destruct Heq; subst. exact Hin.
  - intros Hin. exists key. split; [exact Hin|]. rewrite !Z.eqb_refl. reflexivity.
Qed.

Lemma headArea_spec (head p : Position.t) :
  nearHead head p -> inGrid p ->
  In (toKey (Position.x p) (Position.y p)) (headArea head).
Proof.
  intros [Hx Hy] [Hgx Hgy]. unfold headArea.
  apply in_flat_map. exists (Position.x p - Position.x head). split.
  { simpl. lia. }
  apply in_flat_map. exists (Position.y p - Position.y head). split.
  { simpl. lia. }
  replace (Position.x head + (Position.x p - Position.x head)) with (Position.x p) by lia.
  replace (Position.y head + (Position.y p - Position.y head)) with (Position.y p) by lia.
  unfold CONFIG.GRID_SIZE in *.
  assert (H : (Position.x p >=? 0) && (Position.x p <? 15)
              && (Position.y p >=? 0) && (Position.y p <? 15) = true).
  { rewrite !andb_true_iff, !Z.geb_leb, !Z.leb_le, !Z.ltb_lt. lia. }
  rewrite H. left. reflexivity.
Qed.

(** What the placement loop keeps true of its two accumulators, and what
    that gives for the list it ends with. *)
Lemma placeEnemies_spec (rnd : Random) (enemyCount : Z) (attemptsLeft : nat) :
  forall (call : nat) (blocked : list (Z * Z)) (enemies : list EnemyCell.t),
    (forall e, In e enemies -> In (toKey (EnemyCell.x e) (EnemyCell.y e)) blocked) ->
    NoDup (map enemyCell enemies) ->
    Z.of_nat (length enemies) <= Z.max 0 enemyCount ->
    let placed := placeEnemies rnd enemyCount attemptsLeft call blocked enemies in
    Z.of_nat (length placed) <= Z.max 0 enemyCount
    /\ NoDup (map enemyCell placed)
    /\ (forall e, In e placed ->
                  In e enemies
                  \/ ~ In (toKey (EnemyCell.x e) (EnemyCell.y e)) blocked)
    /\ ((forall k, 0 <= rndCell rnd k < CONFIG.GRID_SIZE) ->
        forall e, In e placed -> In e enemies \/ inGrid (enemyCell e)).
Proof.
  induction attemptsLeft as [|n IH]; intros call blocked enemies Hkeys Hnd Hlen;
    cbn [placeEnemies].
  { repeat split; auto. }
  destruct (Z.of_nat (length enemies) <? enemyCount) eqn:Hmore;
    [|repeat split; auto].
  apply Z.ltb_lt in Hmore.
  destruct (hasKey blocked (toKey (rndCell rnd call) (rndCell rnd (call + 1))))
    eqn:Hblocked.
  { apply IH; assumption. }
  apply not_true_iff_false in Hblocked. rewrite hasKey_spec in Hblocked.
  set (x := rndCell rnd call) in *. set (y := rndCell rnd (call + 1)) in *.
  set (new := EnemyCell.mk x y (kindAt (rndKind rnd (call + 2)))
                           (rndPhase rnd (call + 3))).
  destruct (IH (call + 4)%nat (toKey x y :: blocked) (enemies ++ [new]))
    as [Hcount [Hdistinct [Hfresh Hgrid]]].
  - intros e He. apply in_app_or in He. destruct He as [He|[<-|[]]].
    + right. apply Hkeys. exact He.
    + left. reflexivity.
  - rewrite map_app. simpl.
    apply (Permutation_NoDup (Permutation_cons_append _ (enemyCell new))).
    constructor; [|exact Hnd].
    { intros Hin. apply in_map_iff in Hin. destruct Hin as [e [Heq He]].
      apply Hblocked. specialize (Hkeys e He).
      unfold enemyCell in Heq. injection Heq as Hx Hy. simpl in Hx, Hy.
      unfold toKey in *. rewrite <- Hx, <- Hy. exact Hkeys. }
  - rewrite length_app. simpl. lia.
  - split; [exact Hcount|]. split; [exact Hdistinct|]. split.
    + intros e He. destruct (Hfresh e He) as [Hold|Hnew].
      * apply in_app_or in Hold. destruct Hold as [Hold|[<-|[]]]; [left; exact Hold|].
        right. exact Hblocked.
      * right. intros Hin. apply Hnew. right. exact Hin.
    + intros Hrange e He. destruct (Hgrid Hrange e He) as [Hold|Hin]; [|right; exact Hin].
      apply in_app_or in Hold. destruct Hold as [Hold|[<-|[]]]; [left; exact Hold|].
      right. unfold enemyCell, inGrid. simpl. split; apply Hrange.
Qed.

(** The obstacles of a level number at most [max 0 (level - 1)], none on
    level 1; they sit on pairwise different cells, none on a snake cell
    and none on a grid cell of the 3x3 block around the snake's head; and
    with draws that are grid coordinates they all sit on the grid. *)
Theorem spawnEnemiesForLevel_placement (rnd : Random) (targetLevel : Z)
    (snake : list Position.t) :
  let enemies := spawnEnemiesForLevel rnd targetLevel snake in
  Z.of_nat (length enemies) <= Z.max 0 (targetLevel - 1)
  /\ (targetLevel <= 1 -> enemies = [])
  /\ NoDup (map enemyCell enemies)
  /\ (forall seg, In seg snake -> ~ enemyAt enemies seg)
  /\ (forall head rest p,
         snake = head :: rest -> nearHead head p -> inGrid p ->
         ~ enemyAt enemies p)
  /\ ((forall k, 0 <= rndCell rnd k < CONFIG.GRID_SIZE) ->
      Forall inGrid (map enemyCell enemies)).
Proof.
  intros enemies. unfold spawnEnemiesForLevel in enemies.
  destruct (Z.max 0 (targetLevel - 1) =? 0) eqn:Hnone.
  { subst enemies. apply Z.eqb_eq in Hnone.
    split; [simpl; lia|]. split; [reflexivity|]. split; [constructor|].
    split; [intros seg _ [e [[] _]]|]. split; [intros head rest p _ _ _ [e [[] _]]|].
    intros _. constructor. }
  apply Z.eqb_neq in Hnone.
  destruct (placeEnemies_spec rnd (Z.max 0 (targetLevel - 1)) 4000 0
              (initialBlocked snake) [])
    as [Hcount [Hdistinct [Hfresh Hgrid]]];
    [intros e [] | constructor | simpl; lia |].
  fold enemies in Hcount, Hdistinct, Hfresh, Hgrid.
  assert (Hclear : forall p, In (toKey (Position.x p) (Position.y p))
                                (initialBlocked snake) ->
                             ~ enemyAt enemies p).
  { intros p Hp [e [He [Hx Hy]]].
    destruct (Hfresh e He) as [[]|Hout]. apply Hout. rewrite Hx, Hy. exact Hp. }
  split; [lia|]. split; [intros Hlevel; lia|]. split; [exact Hdistinct|].
  split.
  { intros seg Hseg. apply Hclear. unfold initialBlocked.
    apply in_or_app. right.
    apply in_map_iff. exists seg. split; [reflexivity | exact Hseg]. }
  split.
  { intros head rest p Hsnake Hnear Hin. apply Hclear. unfold initialBlocked.
    rewrite Hsnake. apply in_or_app. left. apply headArea_spec; assumption. }
  intros Hrange. apply Forall_forall. intros c Hc.
  apply in_map_iff in Hc. destruct Hc as [e [<- He]].
  destruct (Hgrid Hrange e He) as [[]|Hin]. exact Hin.
Qed.

(** ** The board a level starts on *)

(** The obstacles of a level keep off the snake and off the grid cells
    around its head, and number no more than the level allows. *)
Lemma enemies_clear (rnd : Random) (targetLevel : Z) (snake : list Position.t) :
  let enemies := spawnEnemiesForLevel rnd targetLevel snake in
  Z.of_nat (length enemies) <= Z.max 0 (targetLevel - 1)
  /\ (forall p, In (toKey (Position.x p) (Position.y p)) (initialBlocked snake) ->
                ~ enemyAt enemies p).
Proof.
  intros enemies. unfold spawnEnemiesForLevel in enemies.
  destruct (Z.max 0 (targetLevel - 1) =? 0) eqn:Hnone.
  { subst enemies. split; [simpl; lia | intros p _ [e [[] _]]]. }
  destruct (placeEnemies_spec rnd (Z.max 0 (targetLevel - 1)) 4000 0
              (initialBlocked snake) [])
    as [Hcount [_ [Hfresh _]]];
    [intros e [] | constructor | simpl; lia |].
  fold enemies in Hcount, Hfresh.
  split; [lia|].
  intros p Hp [e [He [Hx Hy]]].
  destruct (Hfresh e He) as [[]|Hout]. apply Hout. rewrite Hx, Hy. exact Hp.
Qed.

Lemma startSnake_blocked (p : Position.t) :
  In p startSnake \/ (nearHead (Position.mk 7 7) p /\ inGrid p) ->
  In (toKey (Position.x p) (Position.y p)) (initialBlocked startSnake).
Proof.
  intros [Hp|[Hnear Hin]]; unfold initialBlocked, startSnake;
    cbn [Z.div CONFIG.GRID_SIZE]; apply in_or_app.
  - right. apply in_map_iff. exists p. split; [reflexivity | exact Hp].
  - left. apply headArea_spec; assumption.
Qed.

Lemma handleKeyDown_keeps_board (key : string) (g : Game) :
  snakeRef (handleKeyDown key g) = snakeRef g
  /\ directionRef (handleKeyDown key g) = directionRef g
  /\ enemiesRef (handleKeyDown key g) = enemiesRef g
  /\ foodRef (handleKeyDown key g) = foodRef g.
Proof.
  unfold handleKeyDown.
  destruct (gameState g); try (repeat split; reflexivity).
  destruct (keyDirection key);
    [destruct (length (inputQueueRef g) <? 2)%nat
    |destruct (existsb (String.eqb key) [" "%string; "Escape"%string])];
    repeat split; reflexivity.
Qed.

Lemma keys_keep_board (keys : list string) (g : Game) :
  snakeRef (play (map KeyDown keys) g) = snakeRef g
  /\ directionRef (play (map KeyDown keys) g) = directionRef g
  /\ enemiesRef (play (map KeyDown keys) g) = enemiesRef g
  /\ foodRef (play (map KeyDown keys) g) = foodRef g.
Proof.
  revert g. induction keys as [|key keys IH]; intros g; [repeat split; reflexivity|].
  simpl. destruct (IH (handleKeyDown key g)) as [Hs [Hd [He Hf]]].
  destruct (handleKeyDown_keeps_board key g) as [Hs' [Hd' [He' Hf']]].
  repeat split; congruence.
Qed.

(** A board as [initGame] and [nextLevel] lay it out for some level: the
    centred snake heading right, the level's obstacles, and food
    respawned after them. *)
Lemma level_board_well_placed (g : Game) rnd rndFood (lvl : Z) :
  snakeRef g = startSnake ->
  enemiesRef g = spawnEnemiesForLevel rnd lvl startSnake ->
  foodRef g = spawnFood rndFood startSnake (enemiesRef g) ->
  wellPlaced g.
Proof.
  intros Hsnake Henemies Hfood.
  destruct (enemies_clear rnd lvl startSnake) as [_ Hclear].
  cbv zeta in Hclear. rewrite <- Henemies in Hclear.
  unfold wellPlaced. rewrite Hsnake, Hfood.
  split; [repeat constructor; simpl; intuition discriminate|].
  split; [|intros seg Hseg; apply Hclear, startSnake_blocked; left; exact Hseg].
  apply spawnFood_free. exists (Position.mk 8 7).
  split; [unfold inGrid; simpl; unfold CONFIG.GRID_SIZE; lia|].
  split; [simpl; intuition discriminate|].
  apply Hclear, startSnake_blocked. right.
  unfold nearHead, inGrid, CONFIG.GRID_SIZE. simpl. lia.
Qed.

Lemma level_board_first_tick (g : Game) rnd (lvl : Z) (keys : list string) rnd' :
  snakeRef g = startSnake ->
  directionRef g = RIGHT ->
  enemiesRef g = spawnEnemiesForLevel rnd lvl startSnake ->
  terminal (fst (moveSnake rnd' (play (map KeyDown keys) g))) = false.
Proof.
  intros Hsnake Hdir Henemies.
  destruct (keys_keep_board keys g) as [Hs [Hd [He _]]].
  set (g' := play (map KeyDown keys) g) in *.
  rewrite Hsnake in Hs. rewrite Hdir in Hd. rewrite Henemies in He.
  destruct (enemies_clear rnd lvl startSnake) as [_ Hclear].
  cbv zeta in Hclear. rewrite <- He in Hclear.
  rewrite (moveSnake_outcome rnd' g' (Position.mk 7 7)
             [Position.mk 6 7; Position.mk 5 7] Hs).
  cbv zeta.
  assert (Hheading : heading g' = RIGHT \/ heading g' = UP \/ heading g' = DOWN).
  { unfold heading. rewrite Hd. destruct (inputQueueRef g') as [|[| | |] q]; simpl; auto. }
  set (head := advance (heading g') (Position.mk 7 7)).
  assert (Hcases : head = Position.mk 8 7 \/ head = Position.mk 7 6
                   \/ head = Position.mk 7 8).
  { unfold head. destruct Hheading as [->|[->| ->]]; simpl; auto. }
  assert (Hnear : nearHead (Position.mk 7 7) head /\ inGrid head).
  { unfold nearHead, inGrid, CONFIG.GRID_SIZE.
    destruct Hcases as [->|[->| ->]]; simpl; lia. }
  assert (Hwall : outsideGrid head = false) by (apply outsideGrid_spec; apply Hnear).
  assert (Hself : willCollide [Position.mk 7 7; Position.mk 6 7; Position.mk 5 7] head
                  = false).
  { destruct Hcases as [->|[->| ->]]; reflexivity. }
  assert (Henemy : hitEnemy (enemiesRef g') head = false).
  { apply not_true_iff_false. rewrite hitEnemy_spec.
    apply Hclear, startSnake_blocked. right. exact Hnear. }
  rewrite Hwall, Hself, Henemy.
  destruct (_ && _); reflexivity.
Qed.

Lemma startSnake_sound : connected startSnake /\ Forall inGrid startSnake.
Proof.
  split; [vm_compute; repeat split|].
  repeat constructor; discriminate.
Qed.

(** On every level, with any random draws: [startGame] and [nextLevel]
    leave a sound board (the food is on no snake cell and no obstacle, no
    obstacle under the snake), with the centred three-cell snake heading
    right, an empty input queue, no obstacle after [startGame] and at
    most one per level passed after [nextLevel]; and the first tick on it
    never ends the game, whatever keys were pressed before it. *)
Theorem level_start_is_safe (rnd : Random) (rndFood : nat -> Z) (s : Session.t)
    (keys : list string) (rnd' : nat -> Z) :
  let started := Session.game (Session.startGame rnd rndFood s) in
  let next := Session.game (Session.nextLevel rnd rndFood s) in
  (soundBoard started /\ soundBoard next)
  /\ (enemiesRef started = []
      /\ Z.of_nat (length (enemiesRef next)) <= Z.max 0 (Session.level s))
  /\ (snakeRef started = startSnake /\ snakeRef next = startSnake)
  /\ (directionRef started = RIGHT /\ directionRef next = RIGHT)
  /\ (inputQueueRef started = [] /\ inputQueueRef next = [])
  /\ (gameState started = playing /\ gameState next = playing)
  /\ terminal (fst (moveSnake rnd' (play (map KeyDown keys) started))) = false
  /\ terminal (fst (moveSnake rnd' (play (map KeyDown keys) next))) = false.
Proof.
  intros started next.
  split.
  { split; (split; [|exact startSnake_sound]).
    - apply (level_board_well_placed started rnd rndFood 1); reflexivity.
    - apply (level_board_well_placed next rnd rndFood (Session.level s + 1));
        reflexivity. }
  split.
  { split; [reflexivity|].
    pose proof (enemies_clear rnd (Session.level s + 1) startSnake) as [Hcount _].
    replace (Session.level s + 1 - 1) with (Session.level s) in Hcount by lia.
    exact Hcount. }
  split; [split; reflexivity|]. split; [split; reflexivity|].
  split; [split; reflexivity|]. split; [split; reflexivity|].
  split.
  - apply (level_board_first_tick started rnd 1); reflexivity.
  - apply (level_board_first_tick next rnd (Session.level s + 1)); reflexivity.
Qed.

(** ** The tick interval over a whole level *)

Lemma levelSpeed_in_range (lvl : Z) : 1 <= lvl -> speedInRange (levelSpeed lvl).
Proof.
  intros Hlvl. unfold speedInRange, levelSpeed. cbn [num_max].
  eexists. split; [reflexivity|].
  unfold CONFIG.MIN_SPEED, CONFIG.INITIAL_SPEED. lia.
Qed.

Lemma speedUp_in_range (v : Num) : speedInRange v -> speedInRange (speedUp v).
Proof.
  intros [ms [-> Hms]]. unfold speedInRange, speedUp. cbn.
  eexists. split; [reflexivity|].
  unfold CONFIG.MIN_SPEED, CONFIG.INITIAL_SPEED, CONFIG.SPEED_DECREASE in *. lia.
Qed.

Lemma playStep_speed (g : Game) (e : PlayEvent) :
  speedInRange (speedRef g) -> speedInRange (speedRef (playStep g e)).
Proof.
  intros Hrange. destruct e as [key|rnd|]; cbn [playStep].
  - unfold handleKeyDown.
    destruct (gameState g); try exact Hrange.
    destruct (keyDirection key);
      [destruct (length (inputQueueRef g) <? 2)%nat
      |destruct (existsb (String.eqb key) [" "%string; "Escape"%string])];
      exact Hrange.
  - destruct (gameState g); try exact Hrange.
    tick_cases g; try exact Hrange. apply speedUp_in_range. exact Hrange.
  - exact Hrange.
Qed.

(** From the start of a game or of a level on, through any sequence of
    key presses, ticks and level-clear timers, the tick interval is a
    finite number of milliseconds between 60 and 150: eating never takes
    it below the floor, and no level starts above the initial interval. *)
Theorem play_speed_in_range (rnd : Random) (rndFood : nat -> Z) (s : Session.t)
    (events : list PlayEvent) (Hlevel : 0 <= Session.level s) :
  speedInRange
    (speedRef (play events (Session.game (Session.startGame rnd rndFood s))))
  /\ speedInRange
       (speedRef (play events (Session.game (Session.nextLevel rnd rndFood s))))
  /\ Session.level (Session.nextLevel rnd rndFood s) = Session.level s + 1
  /\ Session.level (Session.startGame rnd rndFood s) = 1.
Proof.
  assert (Hplay : forall g, speedInRange (speedRef g) ->
                            speedInRange (speedRef (play events g))).
  { induction events as [|e events IH]; intros g Hg; [exact Hg|].
    simpl. apply IH. apply playStep_speed. exact Hg. }
  split; [apply Hplay; apply (levelSpeed_in_range 1); lia|].
  split; [apply Hplay; apply (levelSpeed_in_range (Session.level s + 1)); lia|].
  split; reflexivity.
Qed.

Lemma play_speed_in_range_witness :
  speedInRange
    (speedRef (play [KeyDown "ArrowUp"%string; Tick noDraws]
                    (Session.game (Session.nextLevel zeroRandom noDraws menuSession)))).
Proof.
  apply (play_speed_in_range zeroRandom noDraws menuSession).
  vm_compute. discriminate.
Defined.

(* ====================================================================== *)
(** * Properties of the controls around the game *)
(* ====================================================================== *)

(** ** Hiding and showing the game *)

(** The effect on visibility. While the game is hidden it is never in
    phase [playing], and running the effect again changes nothing more.
    A game in the menu or over is left alone, hidden or shown. Shown, the
    effect acts only on a started, paused game whose auto-pause flag is
    set, which it resumes. A started game that is playing or paused when
    it is hidden is therefore playing again, with the flag cleared, when
    it is shown. Closing the game with its button leaves the state the
    effect leaves when the game is hidden. The effect never touches the
    board, the score or the level. *)
Theorem visibilityEffect_pause_resume (isVisible : bool) (s : Session.t) :
  gameState (Session.game (Session.visibilityEffect false s)) <> playing
  /\ Session.visibilityEffect false (Session.visibilityEffect false s)
     = Session.visibilityEffect false s
  /\ (gameState (Session.game s) = menu \/ gameState (Session.game s) = gameover ->
      Session.visibilityEffect isVisible s = s)
  /\ (Session.visibilityEffect true s <> s ->
      Session.autoPausedRef s = true /\ Session.hasStartedRef s = true
      /\ gameState (Session.game s) = paused)
  /\ (Session.hasStartedRef s = true ->
      gameState (Session.game s) = playing \/ gameState (Session.game s) = paused ->
      gameState (Session.game (Session.visibilityEffect true
                                 (Session.visibilityEffect false s))) = playing
      /\ Session.autoPausedRef (Session.visibilityEffect true
                                  (Session.visibilityEffect false s)) = false)
  /\ Session.handleClose s = Session.visibilityEffect false s
  /\ (let s' := Session.visibilityEffect isVisible s in
      snakeRef (Session.game s') = snakeRef (Session.game s)
      /\ foodRef (Session.game s') = foodRef (Session.game s)
      /\ enemiesRef (Session.game s') = enemiesRef (Session.game s)
      /\ score (Session.game s') = score (Session.game s)
      /\ Session.level s' = Session.level s).
Proof.
  destruct s as [g lvl hl started auto size].
  destruct g as [sn d q f en sp sc hs nr fe st tm fx].
  unfold Session.handleClose, Session.visibilityEffect, Session.withGameState,
    Session.withAutoPaused, Session.withGame.
  cbn [Session.game Session.hasStartedRef Session.autoPausedRef Session.level
       Session.highLevel Session.canvasSize gameState snakeRef directionRef
       inputQueueRef foodRef enemiesRef speedRef score highScore isNewRecord
       foodEatenThisLevel levelClearTimers effects negb].
  split; [destruct st, started; cbn; discriminate|].
  split; [destruct st, started; reflexivity|].
  split; [intros [->| ->]; destruct isVisible, started, auto; reflexivity|].
  split.
  { destruct auto, started, st; cbn; intros H; try (exfalso; apply H; reflexivity);
      repeat split. }
  split; [intros -> [->| ->]; split; reflexivity|].
  split; [destruct st, started; reflexivity|].
  destruct isVisible, st, started, auto; cbn; repeat split.
Qed.

(** ** The canvas *)

(** After [updateSize] the canvas side is the previous one or the largest
    multiple of the 15 cells that fits the container less its 16 pixels
    of padding, capped at 350 pixels; it changes exactly when the
    container offers at least one pixel per cell. A side that is a
    positive multiple of 15 stays one, so every cell is a whole number of
    pixels. Nothing else of the state changes. *)
Theorem updateSize_whole_cells (container : option Z) (s : Session.t) :
  let s' := Session.updateSize container s in
  Session.game s' = Session.game s
  /\ Session.level s' = Session.level s
  /\ (container = None -> s' = s)
  /\ (forall clientWidth,
         container = Some clientWidth ->
         (clientWidth < 31 -> s' = s)
         /\ (31 <= clientWidth ->
             let side := Session.canvasSize s' in
             side = Z.min (clientWidth - 16) 350 / 15 * 15
             /\ 0 < side <= Z.min (clientWidth - 16) 350
             /\ Z.min (clientWidth - 16) 350 - 15 < side
             /\ side mod 15 = 0))
  /\ (0 < Session.canvasSize s /\ Session.canvasSize s mod 15 = 0 ->
      0 < Session.canvasSize s' /\ Session.canvasSize s' mod 15 = 0).
Proof.
  intros s'. unfold Session.updateSize in s'.
  destruct container as [w|]; subst s'.
  2:{ split; [reflexivity|]. split; [reflexivity|]. split; [reflexivity|].
      split; [intros w Hw; discriminate Hw | tauto]. }
  unfold CONFIG.GRID_SIZE.
  set (maxSize := Z.min (w - 16) 350).
  assert (Hdiv : maxSize / 15 * 15 <= maxSize /\ maxSize - 15 < maxSize / 15 * 15).
  { pose proof (Z.div_mod maxSize 15 ltac:(lia)).
    pose proof (Z.mod_pos_bound maxSize 15 ltac:(lia)). lia. }
  assert (Hmod : (maxSize / 15 * 15) mod 15 = 0) by (apply Z.mod_mul; lia).
  destruct (w - 16 <=? 0) eqn:Hnarrow.
  { apply Z.leb_le in Hnarrow.
    split; [reflexivity|]. split; [reflexivity|]. split; [reflexivity|].
    split; [|tauto].
    intros w' Hw'. injection Hw' as <-. split; [reflexivity | lia]. }
  apply Z.leb_gt in Hnarrow.
  destruct (maxSize / 15 * 15 >? 0) eqn:Hpos.
  - apply Z.gtb_lt in Hpos. cbn [Session.game Session.level Session.canvasSize].
    split; [reflexivity|]. split; [reflexivity|]. split; [discriminate|].
    split; [|intros _; split; [exact Hpos | exact Hmod]].
    intros w' Hw'. injection Hw' as <-. fold maxSize. split.
    + intros Hsmall. exfalso.
      assert (maxSize < 15) by (unfold maxSize; lia).
      rewrite Z.div_small in Hpos by (unfold maxSize in *; lia). lia.
    + intros _. cbv zeta. repeat split; solve [lia | exact Hmod].
  - rewrite Z.gtb_ltb in Hpos. apply Z.ltb_ge in Hpos.
    split; [reflexivity|]. split; [reflexivity|]. split; [reflexivity|].
    split; [|tauto].
    intros w' Hw'. injection Hw' as <-. split; [reflexivity|].
    intros Hwide. exfalso.
    assert (15 <= maxSize) by (unfold maxSize; lia).
    assert (1 <= maxSize / 15) by (apply Z.div_le_lower_bound; lia). lia.
Qed.

(* ====================================================================== *)
(** * Further properties of the hall of fame *)
(* ====================================================================== *)

(** ** The player's name *)

Lemma trimStart_clean (s : JSString) :
  Forall (fun c => isWhiteSpace c = false) s -> trimStart s = s.
Proof.
  intros Hs. destruct Hs as [|c rest Hc _]; [reflexivity|].
  simpl. rewrite Hc. reflexivity.
Qed.

Lemma trim_clean (s : JSString) :
  Forall (fun c => isWhiteSpace c = false) s -> trim s = s.
Proof.
  intros Hs. unfold trim. rewrite (trimStart_clean s Hs).
  rewrite trimStart_clean; [apply rev_involutive|].
  apply Forall_rev. exact Hs.
Qed.

(** A boolean test that holds of every code unit below a bound, checked
    by running it on each. *)
Lemma check_below (P : N -> bool) (bound : nat) :
  forallb P (map N.of_nat (seq 0 bound)) = true ->
  forall c, (c < N.of_nat bound)%N -> P c = true.
Proof.
  intros Hall c Hc. rewrite forallb_forall in Hall. apply Hall.
  apply in_map_iff. exists (N.to_nat c). split; [apply Nnat.N2Nat.id|].
  apply in_seq. lia.
Qed.

Lemma isNameChar_small (c : N) : isNameChar c = true -> (c < 370)%N.
Proof.
  unfold isNameChar. cbn [existsb].
  rewrite !orb_true_iff, !andb_true_iff, !N.leb_le, !N.eqb_eq.
  intuition (try discriminate; lia).
Qed.

Lemma isUpperNameChar_small (c : N) : isUpperNameChar c = true -> (c < 370)%N.
Proof.
  unfold isUpperNameChar. cbn [existsb].
  rewrite !orb_true_iff, !andb_true_iff, !N.leb_le, !N.eqb_eq.
  intuition (try discriminate; lia).
Qed.

Lemma toUpperCaseHu_upper (c : N) :
  isNameChar c = true -> isUpperNameChar (toUpperCaseHu c) = true.
Proof.
  intros Hc.
  pose proof (check_below
                (fun c => implb (isNameChar c) (isUpperNameChar (toUpperCaseHu c)))
                370 ltac:(vm_compute; reflexivity) c (isNameChar_small c Hc)) as H.
  cbv beta in H. rewrite Hc in H. exact H.
Qed.

Lemma upperNameChar_fixed (c : N) :
  isUpperNameChar c = true ->
  isNameChar c = true /\ toUpperCaseHu c = c /\ isWhiteSpace c = false.
Proof.
  intros Hc.
  pose proof (check_below
                (fun c => implb (isUpperNameChar c)
                                (isNameChar c && (toUpperCaseHu c =? c)%N
                                 && negb (isWhiteSpace c)))
                370 ltac:(vm_compute; reflexivity) c (isUpperNameChar_small c Hc)) as H.
  cbv beta in H. rewrite Hc in H. cbn [implb] in H.
  rewrite !andb_true_iff, N.eqb_eq, negb_true_iff in H. tauto.
Qed.

Lemma filter_keeps_all (A : Type) (f : A -> bool) (l : list A) :
  Forall (fun a => f a = true) l -> filter f l = l.
Proof.
  induction 1 as [|a l Ha _ IH]; simpl; [reflexivity|].
  rewrite Ha, IH. reflexivity.
Qed.

Lemma map_fixes_all (A : Type) (f : A -> A) (l : list A) :
  Forall (fun a => f a = a) l -> map f l = l.
Proof.
  induction 1 as [|a l Ha _ IH]; simpl; [reflexivity|].
  rewrite Ha, IH. reflexivity.
Qed.

(** Whatever is typed, the name [handleNameChange] stores has at most
    eight code units, each a digit, a capital letter or an accented
    capital of Hungarian, and no whitespace; sanitizing it again changes
    nothing; and [handleSaveScore], which trims the name and cuts it to
    eight, saves exactly the name stored. *)
Theorem sanitizeName_clean (normalized : JSString) :
  let name := sanitizeName normalized in
  (length name <= 8)%nat
  /\ Forall (fun c => isUpperNameChar c = true) name
  /\ trim name = name
  /\ sanitizeName name = name
  /\ (forall score level now h,
         Entry.name (entryOf score level now (handleNameChange normalized h)) = name).
Proof.
  intros name.
  assert (Hlen : (length name <= 8)%nat).
  { unfold name, sanitizeName. rewrite length_map. apply firstn_le_length. }
  assert (Hupper : Forall (fun c => isUpperNameChar c = true) name).
  { unfold name, sanitizeName. apply Forall_forall. intros c Hc.
    apply in_map_iff in Hc. destruct Hc as [c0 [<- Hc0]].
    apply toUpperCaseHu_upper.
    assert (Hin : In c0 (filter isNameChar
                           (filter (fun c => negb (isWhiteSpace c)) normalized))).
    { rewrite <- (firstn_skipn CONFIG.NAME_MAX_CHARS
                    (filter isNameChar
                       (filter (fun c => negb (isWhiteSpace c)) normalized))).
      apply in_or_app. left. exact Hc0. }
    apply filter_In in Hin. apply Hin. }
  assert (Hfix : Forall (fun c => isNameChar c = true /\ toUpperCaseHu c = c
                                  /\ isWhiteSpace c = false) name).
  { eapply Forall_impl; [|exact Hupper]. intros c Hc.
    apply upperNameChar_fixed. exact Hc. }
  assert (Htrim : trim name = name).
  { apply trim_clean. eapply Forall_impl; [|exact Hfix]. intros c Hc. apply Hc. }
  split; [exact Hlen|]. split; [exact Hupper|]. split; [exact Htrim|].
  split.
  - unfold sanitizeName at 1.
    rewrite (filter_keeps_all _ (fun c => negb (isWhiteSpace c)) name).
    2:{ eapply Forall_impl; [|exact Hfix]. intros c [_ [_ Hc]]. rewrite Hc. reflexivity. }
    rewrite (filter_keeps_all _ isNameChar name).
    2:{ eapply Forall_impl; [|exact Hfix]. intros c Hc. apply Hc. }
    rewrite firstn_all2 by exact Hlen.
    apply map_fixes_all. eapply Forall_impl; [|exact Hfix]. intros c Hc. apply Hc.
  - intros score level now h.
    unfold entryOf, handleNameChange. cbn [Entry.name playerName setPlayerName].
    fold name. rewrite Htrim. apply firstn_all2. exact Hlen.
Qed.

(** ** Error messages *)

Lemma concat_nonempty (sep first : string) (others : list string) :
  first <> EmptyString -> String.concat sep (first :: others) <> EmptyString.
Proof.
  intros Hfirst. destruct first as [|c first']; [contradiction|].
  destruct others; simpl; discriminate.
Qed.

Lemma filterBoolean_nonempty (fields : list (option string)) :
  Forall (fun text => text <> EmptyString) (filterBoolean fields).
Proof.
  unfold filterBoolean. induction fields as [|[[|c text]|] fields IH]; simpl.
  - constructor.
  - exact IH.
  - constructor; [discriminate | exact IH].
  - exact IH.
Qed.

(** The text shown for a remote error is never empty: it is the fallback
    text when the error is not an object or carries none of the four
    fields with text in it, and otherwise the non-empty fields, in the
    order message, details, hint, code, joined by [" | "]. *)
Theorem formatSupabaseError_never_empty (error : option SupabaseError) :
  formatSupabaseError error <> EmptyString
  /\ (forall err,
         error = Some err ->
         let parts := filterBoolean [err_message err; err_details err;
                                     err_hint err; err_code err] in
         (parts = [] -> formatSupabaseError error = "Ismeretlen hiba"%string)
         /\ (parts <> [] -> formatSupabaseError error = String.concat " | " parts))
  /\ (forall text,
         text <> EmptyString ->
         formatSupabaseError (Some (mkSupabaseError (Some text) None None None)) = text).
Proof.
  split; [|split].
  - destruct error as [err|]; [|discriminate]. unfold formatSupabaseError.
    destruct (String.concat _ _) eqn:Hjoined; discriminate.
  - intros err ->. cbv zeta. unfold formatSupabaseError.
    pose proof (filterBoolean_nonempty
                  [err_message err; err_details err; err_hint err; err_code err]) as Hne.
    destruct (filterBoolean _) as [|first others] eqn:Hparts.
    + split; [reflexivity | intros H; exfalso; apply H; reflexivity].
    + split; [discriminate|]. intros _.
      inversion Hne as [|? ? Hfirst _]; subst.
      pose proof (concat_nonempty " | " first others Hfirst) as Hjoined.
      destruct (String.concat " | " (first :: others)); [contradiction | reflexivity].
  - intros [|c text] Htext; [contradiction | reflexivity].
Qed.

(** ** The stored leaderboard *)

Lemma flat_map_singletons (A B : Type) (f : A -> B) (l : list A) :
  flat_map (fun a => [f a]) l = map f l.
Proof. induction l as [|a l IH]; simpl; [reflexivity | rewrite IH; reflexivity]. Qed.

(** Whatever the storage holds, the loader returns at most ten entries,
    each without an id and with a name of at most eight code units; a
    missing key, text that does not parse and a value that is not an
    array all give the empty list. A list that was written comes back
    entry by entry, ids dropped and names cut to eight, up to the tenth;
    so a list of at most ten entries without ids and with names of at
    most eight code units comes back as it was. *)
Theorem loadHallOfFame_round_trip (now : Z) (stored : Stored) :
  (length (loadHallOfFame now stored) <= 10)%nat
  /\ Forall (fun e => Entry.id e = None
                      /\ (length (Entry.name e) <= 8)%nat)
            (loadHallOfFame now stored)
  /\ loadHallOfFame now StoredMissing = []
  /\ loadHallOfFame now StoredMalformed = []
  /\ loadHallOfFame now StoredNotArray = []
  /\ (forall entries,
         loadHallOfFame now (storedEntries entries)
         = map reloaded (firstn 10 entries))
  /\ (forall entries,
         (length entries <= 10)%nat ->
         Forall (fun e => Entry.id e = None
                          /\ (length (Entry.name e) <= 8)%nat) entries ->
         loadHallOfFame now (storedEntries entries) = entries).
Proof.
  assert (Hround : forall entries,
             loadHallOfFame now (storedEntries entries)
             = map reloaded (firstn 10 entries)).
  { intros entries. unfold loadHallOfFame, storedEntries.
    rewrite flat_map_concat_map, map_map, <- flat_map_concat_map.
    cbn [item_name item_score item_level item_ts].
    rewrite (flat_map_singletons _ _ reloaded). apply firstn_map. }
  split.
  { unfold loadHallOfFame.
    destruct stored; [simpl; lia | simpl; lia | simpl; lia | apply firstn_le_length]. }
  split.
  { destruct stored as [| | |items]; try constructor.
    unfold loadHallOfFame. apply Forall_forall. intros e He.
    assert (Hin : In e (flat_map
              (fun item =>
                 match item with
                 | Some it =>
                     match item_name it, item_score it with
                     | Some name, Some score =>
                         [Entry.mk None (firstn CONFIG.NAME_MAX_CHARS name) score
                                   (match item_level it with Some v => v | None => 1 end)
                                   (match item_ts it with Some v => v | None => now end)]
                     | _, _ => []
                     end
                 | None => []
                 end) items)).
    { match goal with
      | H : In e (firstn 10 ?l) |- _ =>
          rewrite <- (firstn_skipn 10 l); apply in_or_app; left; exact H
      end. }
    apply in_flat_map in Hin. destruct Hin as [[it|] [_ Hit]]; [|contradiction].
    destruct (item_name it) as [name|]; [|contradiction].
    destruct (item_score it) as [sc|]; [|contradiction].
    destruct Hit as [<-|[]]. split; [reflexivity|].
    cbn [Entry.name]. apply firstn_le_length. }
  split; [reflexivity|]. split; [reflexivity|]. split; [reflexivity|].
  split; [exact Hround|].
  intros entries Hlen Hclean. rewrite Hround, firstn_all2 by exact Hlen.
  apply map_fixes_all. eapply Forall_impl; [|exact Hclean].
  intros [id name sc lv ts] [Hid Hname]. cbn in Hid, Hname. subst id.
  unfold reloaded. cbn [Entry.name Entry.score Entry.level Entry.ts].
  rewrite firstn_all2 by exact Hname. reflexivity.
Qed.

(** From the first render on, through every event of the component, the
    leaderboard on screen holds at most ten entries, whatever the storage
    held, as long as the remote answers with at most the ten rows the
    query asks for. *)
Theorem leaderboard_always_bounded (configured : bool) (now : Z) (stored : Stored)
    (lastName : JSString) (events : list Event)
    (Hremote : Forall answerBounded events) :
  (length (hallOfFame (run events (initialHof configured now stored lastName)))
   <= 10)%nat.
Proof.
  apply run_board_bounded; [exact Hremote|].
  cbn [hallOfFame initialHof]. unfold loadHallOfFame.
  destruct stored; [simpl; lia | simpl; lia | simpl; lia | apply firstn_le_length].
Qed.

Lemma leaderboard_always_bounded_witness :
  (length (hallOfFame
             (run [EvMount; EvFetchAnswer 1 (FetchData []) 0; EvSaveClick 5 1 1000;
                   EvSaveAnswer (Entry.mk None nameABC 5 1 1000) None]
                  (initialHof true 0 StoredMissing nameABC))) <= 10)%nat.
Proof.
  apply leaderboard_always_bounded.
  repeat constructor.
Defined.

(** ** Rows that reach the leaderboard *)

Lemma entryOfRow_name (now : Z) (row : Row) (e : Entry.t) :
  entryOfRow now row = Some e ->
  Entry.name e <> [] /\ (length (Entry.name e) <= 8)%nat
  /\ Entry.id e = row_id row.
Proof.
  unfold entryOfRow.
  destruct (match row_name row with
            | Some s => firstn CONFIG.NAME_MAX_CHARS s
            | None => []
            end) as [|c name] eqn:Hname; [discriminate|].
  destruct (match row_score row with Some v => v | None => Fin 0 end);
    try discriminate.
  intros H. injection H as <-. cbn [Entry.name Entry.id].
  split; [discriminate|]. split; [|reflexivity].
  rewrite <- Hname. destruct (row_name row); [apply firstn_le_length | simpl; lia].
Qed.

(** Every entry a remote answer puts on the leaderboard comes from one of
    its rows and has a name of one to eight code units; a row whose name
    is missing, not a string or empty, or whose score is a number that is
    not finite, gives no entry; and the answer to the current fetch
    replaces the whole list by these entries. *)
Theorem entriesOfRows_named (now : Z) (rows : list Row) :
  Forall (fun e => Entry.name e <> [] /\ (length (Entry.name e) <= 8)%nat)
         (entriesOfRows now rows)
  /\ (forall e, In e (entriesOfRows now rows) ->
                exists row, In row rows /\ entryOfRow now row = Some e)
  /\ (length (entriesOfRows now rows) <= length rows)%nat
  /\ (forall row,
         row_name row = None \/ row_name row = Some []
         \/ (exists v, row_score row = Some v /\ isFinite v = false) ->
         entryOfRow now row = None)
  /\ (forall h,
         hofIsMountedRef h = true ->
         hallOfFame (loadHallOfFameOnline_resume (hofRequestIdRef h)
                       (FetchData rows) now h)
         = entriesOfRows now rows).
Proof.
  assert (Hfrom : forall e, In e (entriesOfRows now rows) ->
                            exists row, In row rows /\ entryOfRow now row = Some e).
  { intros e He. unfold entriesOfRows in He. apply in_flat_map in He.
    destruct He as [row [Hrow He]]. exists row. split; [exact Hrow|].
    destruct (entryOfRow now row) as [e'|]; [|contradiction].
    destruct He as [<-|[]]. reflexivity. }
  split.
  { apply Forall_forall. intros e He. destruct (Hfrom e He) as [row [_ Hrow]].
    destruct (entryOfRow_name now row e Hrow) as [H1 [H2 _]]. split; assumption. }
  split; [exact Hfrom|]. split; [apply entriesOfRows_length|]. split.
  { intros row [Hn|[Hn|[v [Hv Hinf]]]]; unfold entryOfRow.
    - rewrite Hn. reflexivity.
    - rewrite Hn. reflexivity.
    - rewrite Hv. destruct v; [discriminate Hinf| | |];
        destruct (match row_name row with
                  | Some s => firstn CONFIG.NAME_MAX_CHARS s
                  | None => []
                  end); reflexivity. }
  intros h Hmounted. unfold loadHallOfFameOnline_resume.
  rewrite Hmounted, Nat.eqb_refl. reflexivity.
Qed.

(** ** Which entry a full board gives up *)

Lemma sortEntries_sorted_id (l : list Entry.t) :
  StronglySorted hofOrder l -> sortEntries l = l.
Proof.
  induction 1 as [|a rest Hrest IH Hall]; simpl; [reflexivity|].
  rewrite IH. destruct rest as [|b rest']; [reflexivity|].
  simpl. inversion Hall as [|? ? Hab _]; subst.
  apply compareEntries_hofOrder in Hab. rewrite Hab. reflexivity.
Qed.

Lemma insertEntry_before_last (a z : Entry.t) (l : list Entry.t) :
  hofOrder a z -> insertEntry a (l ++ [z]) = insertEntry a l ++ [z].
Proof.
  intros Haz. induction l as [|b rest IH]; simpl.
  - apply compareEntries_hofOrder in Haz. rewrite Haz. reflexivity.
  - destruct (compareEntries a b <=? 0); [reflexivity|]. rewrite IH. reflexivity.
Qed.

(** Below ten entries the merge drops nothing: the new list is the old
    one and the new entry. On a sorted board of ten, a qualifying entry
    takes the place of exactly the last entry, the one with the lowest
    score, and every other entry stays. *)
Theorem mergeHallOfFame_replaces_last (entry : Entry.t) (prev : list Entry.t) :
  ((length prev < 10)%nat ->
   Permutation (mergeHallOfFame entry prev) (entry :: prev))
  /\ (StronglySorted hofOrder prev ->
      length prev = 10%nat ->
      qualifiesForHof prev (Entry.score entry) = true ->
      Permutation (mergeHallOfFame entry prev) (entry :: removelast prev)
      /\ (forall e, In e prev -> Entry.score (last prev entry) <= Entry.score e)
      /\ Entry.score (last prev entry) < Entry.score entry).
Proof.
  split.
  - intros Hshort. unfold mergeHallOfFame.
    rewrite firstn_all2.
    + apply Permutation_sym, sortEntries_perm.
    + rewrite <- (Permutation_length (sortEntries_perm (entry :: prev))). simpl. lia.
  - intros Hsorted Hfull Hq.
    assert (Hne : prev <> []) by (intros ->; discriminate Hfull).
    pose proof (app_removelast_last entry Hne) as Hsplit.
    set (z := last prev entry) in *. set (front := removelast prev) in *.
    assert (Hlow : forall e, In e prev -> Entry.score z <= Entry.score e).
    { intros e He. rewrite Hsplit in He, Hsorted. apply in_app_or in He.
      destruct He as [He|[<-|[]]]; [|lia].
      pose proof (StronglySorted_app_order _ hofOrder front [z] Hsorted e z He
                    (or_introl eq_refl)) as Hord.
      unfold hofOrder in Hord. lia. }
    assert (Hbeat : Entry.score z < Entry.score entry).
    { apply qualifiesForHof_spec in Hq. destruct Hq as [_ [Hshort|[m [Hmin Hlt]]]]; [lia|].
      assert (Hz : isMinScore prev (Entry.score z)).
      { split; [|exact Hlow]. exists z. split; [|reflexivity].
        rewrite Hsplit. apply in_or_app. right. left. reflexivity. }
      rewrite (isMinScore_unique _ _ _ Hz Hmin). exact Hlt. }
    split; [|split; assumption].
    unfold mergeHallOfFame. cbn [sortEntries].
    rewrite (sortEntries_sorted_id prev Hsorted), Hsplit.
    rewrite insertEntry_before_last by (left; lia).
    assert (Hlen : length (insertEntry entry front) = 10%nat).
    { rewrite <- (Permutation_length (insertEntry_perm entry front)).
      rewrite Hsplit, length_app in Hfull. simpl in *. lia. }
    rewrite firstn_app, Hlen, Nat.sub_diag, firstn_0, app_nil_r.
    rewrite firstn_all2 by lia.
    apply Permutation_sym, insertEntry_perm.
Qed.

(* ====================================================================== *)
(** * A whole level *)
(* ====================================================================== *)

Lemma tick_enemies rnd (g : Game) :
  enemiesRef (snd (moveSnake rnd g)) = enemiesRef g.
Proof. tick_cases g; reflexivity. Qed.

(** What a tick does to the cells: either snake and food stay as they
    are, or a new head, next to the old one, on the grid, off the body
    without its tail and off the obstacles, is put in front. *)
Lemma tick_shape rnd (g : Game) :
  (snakeRef (snd (moveSnake rnd g)) = snakeRef g
   /\ foodRef (snd (moveSnake rnd g)) = foodRef g)
  \/ exists head0 rest head,
       snakeRef g = head0 :: rest
       /\ adjacent head head0 /\ inGrid head
       /\ ~ In head (removelast (head0 :: rest))
       /\ ~ enemyAt (enemiesRef g) head
       /\ ((head = foodRef g
            /\ snakeRef (snd (moveSnake rnd g)) = head :: head0 :: rest
            /\ foodRef (snd (moveSnake rnd g))
               = spawnFood rnd (head :: head0 :: rest) (enemiesRef g))
           \/ (head <> foodRef g
               /\ snakeRef (snd (moveSnake rnd g))
                  = head :: removelast (head0 :: rest)
               /\ foodRef (snd (moveSnake rnd g)) = foodRef g)).
Proof.
  tick_cases g; try (left; split; reflexivity);
    right; exists head0, rest, (advance dir head0);
    (split; [reflexivity|]); (split; [apply advance_adjacent|]);
    (split; [apply outsideGrid_spec; exact Hwall|]);
    (split; [rewrite <- willCollide_spec, Hself; discriminate|]);
    (split; [rewrite <- hitEnemy_spec, Henemy; discriminate|]).
  - left. split; [apply same_cell_eq; exact Hfood|]. split; reflexivity.
  - right. split; [|split; reflexivity].
    intros Heq. apply same_cell_eq in Heq. congruence.
Qed.

Lemma sound_after_eating rnd (g : Game) head0 rest :
  soundBoard g -> snakeRef g = head0 :: rest ->
  (length (snakeRef g) + length (enemiesRef g) + 1 < 225)%nat ->
  adjacent (foodRef g) head0 -> inGrid (foodRef g) ->
  let snake := foodRef g :: head0 :: rest in
  wellPlaced (mkGame snake (directionRef g) (inputQueueRef g)
                (spawnFood rnd snake (enemiesRef g)) (enemiesRef g) (speedRef g)
                (score g) (highScore g) (isNewRecord g) (foodEatenThisLevel g)
                (gameState g) (levelClearTimers g) (effects g))
  /\ connected snake /\ Forall inGrid snake.
Proof.
  intros [[Hnd [[Hoff Hfoodfree] Hclear]] [Hconn Hin]] Hsnake Hroom Hadj Hgrid snake.
  rewrite Hsnake in *. unfold wellPlaced. cbn [snakeRef foodRef enemiesRef].
  split; [|split; [split; assumption | constructor; assumption]].
  split; [constructor; assumption|].
  split; [apply spawnFood_free, room_by_count; simpl in *; lia|].
  intros seg [<-|Hseg]; [exact Hfoodfree | apply Hclear; exact Hseg].
Qed.

Lemma sound_after_moving (g : Game) head0 rest head :
  soundBoard g -> snakeRef g = head0 :: rest ->
  adjacent head head0 -> inGrid head ->
  ~ In head (removelast (head0 :: rest)) -> ~ enemyAt (enemiesRef g) head ->
  head <> foodRef g ->
  let snake := head :: removelast (head0 :: rest) in
  NoDup snake /\ freeCell snake (enemiesRef g) (foodRef g)
  /\ (forall seg, In seg snake -> ~ enemyAt (enemiesRef g) seg)
  /\ connected snake /\ Forall inGrid snake.
Proof.
  intros [[Hnd [[Hoff Hfoodfree] Hclear]] [Hconn Hin]] Hsnake
         Hadj Hgrid Hbody Henemy Hfood snake.
  rewrite Hsnake in *. subst snake.
  split; [constructor; [exact Hbody | apply NoDup_removelast; exact Hnd]|].
  split; [split; [|exact Hfoodfree]|].
  { intros [Heq|Hseg]; [congruence | apply Hoff, In_removelast; exact Hseg]. }
  split.
  { intros seg [<-|Hseg]; [exact Henemy | apply Hclear, In_removelast; exact Hseg]. }
  split.
  - apply connected_removelast in Hconn.
    destruct rest as [|b rest']; [exact I|].
    change (removelast (head0 :: b :: rest'))
      with (head0 :: removelast (b :: rest')) in *.
    split; assumption.
  - constructor; [exact Hgrid|].
    rewrite Forall_forall in *. intros p Hp. apply Hin, In_removelast. exact Hp.
Qed.

Lemma tick_board rnd (g : Game) :
  soundBoard g ->
  (length (snakeRef g) + length (enemiesRef g) + 1 < 225)%nat ->
  soundBoard (snd (moveSnake rnd g))
  /\ (length (snakeRef (snd (moveSnake rnd g))) <= S (length (snakeRef g)))%nat.
Proof.
  intros Hsound Hroom.
  pose proof (tick_enemies rnd g) as Henemies.
  destruct (tick_shape rnd g)
    as [[Hs Hf] | [head0 [rest [head [Hsnake [Hadj [Hgrid [Hbody [Hen Hcase]]]]]]]]].
  { unfold soundBoard, wellPlaced in *. rewrite Hs, Hf, Henemies.
    split; [exact Hsound | lia]. }
  destruct Hcase as [[Heq [Hs Hf]] | [Hne [Hs Hf]]];
    unfold soundBoard, wellPlaced; rewrite Hs, Hf, Henemies.
  - subst head.
    destruct (sound_after_eating rnd g head0 rest Hsound Hsnake Hroom Hadj Hgrid)
      as [Hplaced Hrest].
    split; [split; [exact Hplaced | exact Hrest]|].
    rewrite Hsnake. simpl. lia.
  - destruct (sound_after_moving g head0 rest head Hsound Hsnake
                Hadj Hgrid Hbody Hen Hne) as [Hnd [Hfree [Hclear Hrest]]].
    split; [split; [split; [exact Hnd | split; assumption] | exact Hrest]|].
    rewrite Hsnake. cbn [length].
    pose proof (f_equal (@length _)
                  (app_removelast_last head0 (l := head0 :: rest) ltac:(discriminate)))
      as Hlen.
    rewrite length_app in Hlen. simpl in Hlen |- *. lia.
Qed.

Lemma playStep_board (g : Game) (e : PlayEvent) :
  soundBoard g ->
  (length (snakeRef g) + length (enemiesRef g) + 1 < 225)%nat ->
  soundBoard (playStep g e)
  /\ enemiesRef (playStep g e) = enemiesRef g
  /\ (length (snakeRef (playStep g e)) <= S (length (snakeRef g)))%nat.
Proof.
  intros Hsound Hroom. destruct e as [key|rnd|]; cbn [playStep].
  - destruct (handleKeyDown_keeps_board key g) as [Hs [_ [He Hf]]].
    unfold soundBoard, wellPlaced in *. rewrite Hs, He, Hf.
    split; [exact Hsound|]. split; [reflexivity | lia].
  - destruct (gameState g);
      try (split; [exact Hsound|]; split; [reflexivity | lia]).
    destruct (tick_board rnd g Hsound Hroom) as [Hsound' Hgrow].
    split; [exact Hsound'|]. split; [apply tick_enemies | exact Hgrow].
  - split; [exact Hsound|]. split; [reflexivity|]. cbn [levelClearTimeout snakeRef]. lia.
Qed.

(** Through any sequence of key presses, ticks and level-clear timers on
    a sound board, the board stays sound: the snake never crosses itself
    or leaves the grid, stays in one piece, never lies on an obstacle,
    and the food is never on the snake or on an obstacle. The obstacles
    do not change during play. This holds as long as the cells cannot run
    out: snake, obstacles and one cell per event number fewer than the
    225 cells of the grid. *)
Theorem play_keeps_board_sound (events : list PlayEvent) (g : Game)
    (Hsound : soundBoard g)
    (Hroom : (length (snakeRef g) + length (enemiesRef g) + length events
              < 225)%nat) :
  soundBoard (play events g)
  /\ enemiesRef (play events g) = enemiesRef g
  /\ (length (snakeRef (play events g)) <= length (snakeRef g) + length events)%nat.
Proof.
  revert g Hsound Hroom. induction events as [|e events IH]; intros g Hsound Hroom.
  { simpl. split; [exact Hsound|]. split; [reflexivity | lia]. }
  simpl in Hroom |- *.
  destruct (playStep_board g e Hsound ltac:(lia)) as [Hsound' [Henemies Hgrow]].
  destruct (IH (playStep g e) Hsound' ltac:(rewrite Henemies; lia))
    as [Hfinal [Hen Hlen]].
  split; [exact Hfinal|]. split; [congruence | lia].
Qed.

Lemma play_keeps_board_sound_witness :
  soundBoard (play [KeyDown "ArrowUp"%string; Tick noDraws; Tick noDraws]
                   (freshGame [])).
Proof.
  apply play_keeps_board_sound; [|vm_compute; lia].
  split; [|split].
  - split; [|split].
    + repeat constructor; simpl; intuition discriminate.
    + split; [simpl; intuition discriminate | intros [e [[] _]]].
    + intros seg _ [e [[] _]].
  - vm_compute. repeat split.
  - vm_compute. repeat constructor; discriminate.
Defined.
